(** * Ecommerce API: request validation and document mapping

    A shallow embedding of [main.py] and [schemas.py]: the Python values
    that documents hold, the identifier type of the document store, the
    serialization rule [serialize_doc], the filter documents the handlers
    build, the store operations they call, the boundary validation declared
    through [Query(...)] and the schema classes, and the handlers
    themselves.  The handlers take the store handle as an explicit
    [option Database] (the module-level [db], [None] when the store is
    unreachable) and return the new store state next to the response where
    they write.

    In the results of [str()], of the store operations and of the handlers,
    [None] stands for "outside the modelled fragment" (the text of a value
    whose [str()] is not modelled, a regular expression outside the
    modelled syntax), never for a Python exception: what a handler raises
    is an explicit [response].  [ObjectId_parse] and the validators of
    request bodies are the exception: there [None] is the error the source
    raises. *)

From Stdlib Require Import ZArith NArith Ascii String List Floats.SpecFloat.
From stdpp Require Import gmap strings list fin_maps option.

Local Open Scope string_scope.
Local Open Scope Z_scope.

(** ** Python values *)

Module Py.

(** The store's identifier type ([bson.ObjectId]): a byte string, kept as
    its length and the number its bytes spell in big-endian order.  An
    identifier the store assigns has twelve bytes; the constructor applied
    to a string can hold fewer (see [ObjectId_parse]). *)
Record ObjectId := mkOid { oid_size : nat; oid_value : N }.

(** A twelve-byte identifier. *)
Definition mkObjectId (n : N) : ObjectId := mkOid 12 n.

(** [o == o']: the same bytes. *)
Definition oid_eqb (o o' : ObjectId) : bool :=
  (oid_size o =? oid_size o')%nat && (oid_value o =? oid_value o')%N.

Inductive value :=
| VNone
| VBool (b : bool)
| VInt (z : Z)
| VFloat (f : spec_float)
| VStr (s : string)
| VOid (o : ObjectId)
| VList (l : list value)
| VDict (d : gmap string value).

(** A document is a Python [dict] with string keys. *)
Abbreviation doc := (gmap string value).

Definition float_is_zero (f : spec_float) : bool :=
  match f with S754_zero _ => true | _ => false end.

Definition map_is_empty {A} (m : gmap string A) : bool :=
  match map_to_list m with [] => true | _ => false end.

(** [bool(v)]: the truth value Python's [if v] and [not v] test.
    [ObjectId] defines neither [__bool__] nor [__len__], so it is always
    true. *)
Definition truthy (v : value) : bool :=
  match v with
  | VNone => false
  | VBool b => b
  | VInt z => negb (z =? 0)
  | VFloat f => negb (float_is_zero f)
  | VStr s => negb (String.eqb s "")
  | VOid _ => true
  | VList l => match l with [] => false | _ => true end
  | VDict d => negb (map_is_empty d)
  end.

(** *** Hexadecimal text of identifiers *)

Definition hex_digit (n : N) : ascii :=
  match n with
  | 0 => "0" | 1 => "1" | 2 => "2" | 3 => "3" | 4 => "4" | 5 => "5"
  | 6 => "6" | 7 => "7" | 8 => "8" | 9 => "9" | 10 => "a" | 11 => "b"
  | 12 => "c" | 13 => "d" | 14 => "e" | _ => "f"
  end%N%char.

Definition hex_value (c : ascii) : option N :=
  let n := N_of_ascii c in
  if ((48 <=? n) && (n <=? 57))%N then Some (n - 48)%N
  else if ((97 <=? n) && (n <=? 102))%N then Some (n - 87)%N
  else if ((65 <=? n) && (n <=? 70))%N then Some (n - 55)%N
  else None.

(** [width] hexadecimal digits of [n], most significant first. *)
Fixpoint to_hex (width : nat) (n : N) (acc : string) : string :=
  match width with
  | O => acc
  | S w => to_hex w (n / 16)%N (String (hex_digit (n mod 16)%N) acc)
  end.

(** ASCII whitespace, as [bytes.fromhex] skips it: tab, line feed,
    vertical tab, form feed, carriage return and space. *)
Definition is_space (c : ascii) : bool :=
  let n := N_of_ascii c in (((9 <=? n) && (n <=? 13)) || (n =? 32))%N.

(** [bytes.fromhex(s)]: whitespace between bytes is skipped, every byte is
    two adjacent hexadecimal digits, anything else raises [ValueError]
    (here [None]).  The result is the number of bytes read and the number
    they spell, after the [size] bytes that spell [acc]. *)
Fixpoint fromhex (s : string) (size : nat) (acc : N) : option (nat * N) :=
  match s with
  | EmptyString => Some (size, acc)
  | String c s' =>
      if is_space c then fromhex s' size acc
      else
        match hex_value c, s' with
        | Some top, String c' s'' =>
            match hex_value c' with
            | Some bot => fromhex s'' (S size) (acc * 256 + top * 16 + bot)%N
            | None => None
            end
        | _, _ => None
        end
  end.

(** [str(oid)]: two lower-case hexadecimal digits per byte, 24 for a
    store-assigned identifier. *)
Definition ObjectId_str (o : ObjectId) : string :=
  to_hex (2 * oid_size o) (oid_value o) "".

(** [ObjectId(s)] for a [str] argument:
    <<
    if len(oid) == 24:
        try: self.__id = bytes.fromhex(oid)
        except (TypeError, ValueError): _raise_invalid_id(oid)
    else: _raise_invalid_id(oid)
    >>
    [None] is [InvalidId].  A string of 24 characters that holds
    whitespace parses to an identifier of fewer than twelve bytes.  (A
    string with a character outside ASCII is refused whatever its length:
    by the length test or by [fromhex].) *)
Definition ObjectId_parse (s : string) : option ObjectId :=
  if (String.length s =? 24)%nat
  then (λ r : nat * N, mkOid r.1 r.2) <$> fromhex s 0 0%N
  else None.

(** *** [str()] *)

Fixpoint decimal_digits (fuel : nat) (n : N) (acc : string) : string :=
  match fuel with
  | O => acc
  | S f =>
      let acc' := String (hex_digit (n mod 10)%N) acc in
      if (n / 10 =? 0)%N then acc' else decimal_digits f (n / 10)%N acc'
  end.

Definition str_of_N (n : N) : string := decimal_digits (S (N.to_nat (N.log2 n))) n "".

Definition str_of_Z (z : Z) : string :=
  match z with
  | Z0 => "0"
  | Zpos p => str_of_N (Npos p)
  | Zneg p => "-" ++ str_of_N (Npos p)
  end.

(** [str(v)] for the values whose text is modelled: [None], booleans,
    integers, strings and identifiers.  The text of a float (shortest
    round-trip digits) and of a container ([repr] of its elements) is not
    modelled: [None]. *)
Definition py_str (v : value) : option string :=
  match v with
  | VNone => Some "None"
  | VBool true => Some "True"
  | VBool false => Some "False"
  | VInt z => Some (str_of_Z z)
  | VStr s => Some s
  | VOid o => Some (ObjectId_str o)
  | VFloat _ | VList _ | VDict _ => None
  end.

End Py.
Export Py.

(** ** Serialization ([main.py], [serialize_doc]) *)

(** <<
    def serialize_doc(doc: dict):
        if not doc:
            return doc
        doc["id"] = str(doc.pop("_id")) if doc.get("_id") else None
        return doc
    >>
    [doc.get("_id")] is [None] when the key is absent, so the test fails
    both for an absent key and for a present value that is false; the
    [pop] runs only in the true branch. *)
Definition serialize_doc (d : doc) : option doc :=
  if map_is_empty d then Some d
  else
    match d !! "_id" with
    | Some v =>
        if truthy v
        then s ← py_str v; Some (<["id" := VStr s]> (delete "_id" d))
        else Some (<["id" := VNone]> d)
    | None => Some (<["id" := VNone]> d)
    end.

(** ** The store's [$regex] operator

    [list_products] hands the caller's [q] to the store as
    [{"$regex": q, "$options": "i"}].  The store compiles the text as a
    Perl-compatible regular expression and searches the field with it.
    The fragment modelled here: ASCII patterns built from literal
    characters, [.], a backslash before a character that is not a letter
    or a digit, the postfix operators [*], [+] and [?], alternation and
    parentheses; ASCII subjects; the options [""] and ["i"].  Outside the
    fragment (and for a pattern the store refuses) the result is [None]. *)

Module Regex.

Inductive re :=
| Void
| Eps
| Chr (c : ascii)
| Dot
| Any
| Cat (r1 r2 : re)
| Alt (r1 r2 : re)
| Star (r : re).

Definition is_upper (c : ascii) : bool :=
  let n := N_of_ascii c in ((65 <=? n) && (n <=? 90))%N.

Definition lower (c : ascii) : ascii :=
  if is_upper c then ascii_of_N (N_of_ascii c + 32) else c.

Definition is_alnum (c : ascii) : bool :=
  let n := N_of_ascii c in
  (((48 <=? n) && (n <=? 57)) || ((65 <=? n) && (n <=? 90))
   || ((97 <=? n) && (n <=? 122)))%N.

Definition is_ascii (c : ascii) : bool := (N_of_ascii c <? 128)%N.

(** The characters with a meaning of their own in a pattern. *)
Definition is_meta (c : ascii) : bool :=
  match c with
  | "\" | "^" | "$" | "." | "[" | "]" | "|" | "(" | ")" | "?" | "*" | "+"
  | "{" | "}" => true
  | _ => false
  end%char.

Definition is_quantifier (c : ascii) : bool :=
  match c with
  | "*" | "+" | "?" | "{" => true
  | _ => false
  end%char.

(** Character comparison, caseless under option [i]. *)
Definition chr_eq (ci : bool) (c x : ascii) : bool :=
  if ci then Ascii.eqb (lower c) (lower x) else Ascii.eqb c x.

Definition is_newline (x : ascii) : bool := Ascii.eqb x "010"%char.

Fixpoint nullable (r : re) : bool :=
  match r with
  | Void | Chr _ | Dot | Any => false
  | Eps | Star _ => true
  | Cat r1 r2 => nullable r1 && nullable r2
  | Alt r1 r2 => nullable r1 || nullable r2
  end.

(** The residual of [r] after reading [x]. *)
Fixpoint deriv (ci : bool) (x : ascii) (r : re) : re :=
  match r with
  | Void | Eps => Void
  | Chr c => if chr_eq ci c x then Eps else Void
  | Dot => if is_newline x then Void else Eps
  | Any => Eps
  | Cat r1 r2 =>
      if nullable r1
      then Alt (Cat (deriv ci x r1) r2) (deriv ci x r2)
      else Cat (deriv ci x r1) r2
  | Alt r1 r2 => Alt (deriv ci x r1) (deriv ci x r2)
  | Star r1 => Cat (deriv ci x r1) (Star r1)
  end.

Fixpoint matches (ci : bool) (r : re) (s : list ascii) : bool :=
  match s with
  | [] => nullable r
  | x :: s' => matches ci (deriv ci x r) s'
  end.

(** An unanchored search: some substring of [s] matches [r]. *)
Definition search (ci : bool) (r : re) (s : list ascii) : bool :=
  matches ci (Cat (Star Any) (Cat r (Star Any))) s.

(** The words of [r]. *)
Inductive lang (ci : bool) : re → list ascii → Prop :=
| lang_eps : lang ci Eps []
| lang_chr c x : chr_eq ci c x = true → lang ci (Chr c) [x]
| lang_dot x : is_newline x = false → lang ci Dot [x]
| lang_any x : lang ci Any [x]
| lang_cat r1 r2 s1 s2 : lang ci r1 s1 → lang ci r2 s2 → lang ci (Cat r1 r2) (s1 ++ s2)
| lang_alt_l r1 r2 s : lang ci r1 s → lang ci (Alt r1 r2) s
| lang_alt_r r1 r2 s : lang ci r2 s → lang ci (Alt r1 r2) s
| lang_star_nil r : lang ci (Star r) []
| lang_star_cons r s1 s2 : lang ci r s1 → lang ci (Star r) s2 → lang ci (Star r) (s1 ++ s2).

(** *** Pattern syntax *)

Definition apply_postfix (a : re) (s : list ascii) : option (re * list ascii) :=
  match s with
  | q :: rest =>
      if is_quantifier q then
        match rest with
        | q' :: _ => if is_quantifier q' then None else
            match q with
            | "*" => Some (Star a, rest)
            | "+" => Some (Cat a (Star a), rest)
            | "?" => Some (Alt a Eps, rest)
            | _ => None
            end%char
        | [] =>
            match q with
            | "*" => Some (Star a, rest)
            | "+" => Some (Cat a (Star a), rest)
            | "?" => Some (Alt a Eps, rest)
            | _ => None
            end%char
        end
      else Some (a, s)
  | [] => Some (a, s)
  end.

Fixpoint parse_alt (fuel : nat) (s : list ascii) : option (re * list ascii) :=
  match fuel with
  | O => None
  | S f =>
      '(r, rest) ← parse_seq f s;
      match rest with
      | "|"%char :: rest' =>
          '(r2, rest2) ← parse_alt f rest'; Some (Alt r r2, rest2)
      | _ => Some (r, rest)
      end
  end
with parse_seq (fuel : nat) (s : list ascii) : option (re * list ascii) :=
  match fuel with
  | O => None
  | S f =>
      match s with
      | [] => Some (Eps, s)
      | c :: _ =>
          if (Ascii.eqb c "|" || Ascii.eqb c ")")%char then Some (Eps, s)
          else
            '(a, rest) ← parse_atom f s;
            '(a', rest') ← apply_postfix a rest;
            '(r, rest'') ← parse_seq f rest';
            Some (Cat a' r, rest'')
      end
  end
with parse_atom (fuel : nat) (s : list ascii) : option (re * list ascii) :=
  match fuel with
  | O => None
  | S f =>
      match s with
      | [] => None
      | c :: rest =>
          if Ascii.eqb c "("%char then
            match rest with
            | "?"%char :: _ => None
            | _ =>
                '(r, rest') ← parse_alt f rest;
                match rest' with
                | ")"%char :: rest'' => Some (r, rest'')
                | _ => None
                end
            end
          else if Ascii.eqb c "\"%char then
            match rest with
            | e :: rest' => if is_alnum e then None else Some (Chr e, rest')
            | [] => None
            end
          else if Ascii.eqb c "."%char then Some (Dot, rest)
          else if is_meta c then None
          else Some (Chr c, rest)
      end
  end.

Definition parse (pattern : list ascii) : option re :=
  match parse_alt (3 * length pattern + 4) pattern with
  | Some (r, []) => Some r
  | _ => None
  end.

Definition parse_options (options : string) : option bool :=
  if String.eqb options "" then Some false
  else if String.eqb options "i" then Some true
  else None.

(** Compiling [{"$regex": pattern, "$options": options}], which the store
    does once per query, and running it on one string. *)
Definition compile (pattern options : string) : option (bool * re) :=
  let p := list_ascii_of_string pattern in
  if forallb is_ascii p then
    ci ← parse_options options;
    r ← parse p;
    Some (ci, r)
  else None.

Definition run (cr : bool * re) (subject : string) : option bool :=
  let s := list_ascii_of_string subject in
  if forallb is_ascii s then Some (search cr.1 cr.2 s) else None.

Definition regex_search (pattern options subject : string) : option bool :=
  cr ← compile pattern options; run cr subject.

End Regex.

(** The reading of "contains [q] as a literal substring, case-insensitively",
    stated on its own for comparison with the store's operator. *)
Fixpoint ci_prefix (q t : list ascii) : bool :=
  match q, t with
  | [], _ => true
  | c :: q', x :: t' => Ascii.eqb (Regex.lower c) (Regex.lower x) && ci_prefix q' t'
  | _ :: _, [] => false
  end.

Fixpoint ci_contains_list (q t : list ascii) : bool :=
  ci_prefix q t || match t with [] => false | _ :: t' => ci_contains_list q t' end.

Definition ci_contains (q t : string) : bool :=
  ci_contains_list (list_ascii_of_string q) (list_ascii_of_string t).

(** ** Numbers

    Prices and ratings are Python floats (IEEE binary64, [spec_float]);
    stock and quantities are integers.  The store orders numbers by value
    whatever their type, so both are compared as dyadic rationals
    [m * 2^e], exactly. *)

Module Num.

Inductive dyadic :=
| DNaN
| DInf (negative : bool)
| DFin (m e : Z).

Definition of_float (f : spec_float) : dyadic :=
  match f with
  | S754_zero _ => DFin 0 0
  | S754_infinity s => DInf s
  | S754_nan => DNaN
  | S754_finite s m e => DFin (if s then Zneg m else Zpos m) e
  end.

Definition of_value (v : value) : option dyadic :=
  match v with
  | VInt z => Some (DFin z 0)
  | VFloat f => Some (of_float f)
  | _ => None
  end.

Definition is_nan (d : dyadic) : bool :=
  match d with DNaN => true | _ => false end.

(** [a <= b]; false when either side is not a number. *)
Definition le (a b : dyadic) : bool :=
  match a, b with
  | DNaN, _ | _, DNaN => false
  | DInf true, _ => true
  | _, DInf false => true
  | DInf false, _ => false
  | _, DInf true => false
  | DFin m1 e1, DFin m2 e2 =>
      let e := Z.min e1 e2 in
      m1 * 2 ^ (e1 - e) <=? m2 * 2 ^ (e2 - e)
  end.

(** The binary64 floats that [main.py] writes as literals, in canonical
    form (a 53-bit significand). *)
Definition f0 : spec_float := S754_zero false.
Definition f5 : spec_float := S754_finite false 5629499534213120 (-50).
Definition f29 : spec_float := S754_finite false 8162774324609024 (-48).
Definition f199 : spec_float := S754_finite false 7001690045677568 (-45).
Definition f299 : spec_float := S754_finite false 5260063627280384 (-44).
(** 4.6, 4.8 and 4.9 are not dyadic: the nearest binary64 values. *)
Definition f4_6 : spec_float := S754_finite false 5179139571476070 (-50).
Definition f4_8 : spec_float := S754_finite false 5404319552844595 (-50).
Definition f4_9 : spec_float := S754_finite false 5516909543528858 (-50).

End Num.

(** ** The document store

    The store is reached through [find], [find_one], [count_documents],
    [insert_one] and [insert_many] on named collections.  A collection
    keeps its documents in insertion order, which is the order [find]
    returns them in when no sort is given. *)

Module Store.

(** What a filter document asks of one field.  These are the shapes
    [main.py] builds: a plain value ([{"category": c}], [{"featured": b}],
    [{"_id": oid}], [{"email": e}]), [{"$regex": q, "$options": "i"}], and
    a dictionary with ["$gte"] and/or ["$lte"]. *)
Inductive condition :=
| CEqStr (s : string)
| CEqBool (b : bool)
| CEqOid (o : ObjectId)
| CRegex (pattern options : string)
| CRange (gte lte : option spec_float).

Abbreviation filter := (gmap string condition).

(** The values a condition is tried on: the field's value, or the elements
    of the field when it holds an array; none when the field is absent. *)
Definition candidates (field : option value) : list value :=
  match field with
  | None => []
  | Some (VList l) => l
  | Some v => [v]
  end.

Definition eq_str (s : string) (v : value) : bool :=
  match v with VStr s' => String.eqb s s' | _ => false end.

Definition eq_bool (b : bool) (v : value) : bool :=
  match v with VBool b' => Bool.eqb b b' | _ => false end.

Definition eq_oid (o : ObjectId) (v : value) : bool :=
  match v with VOid o' => oid_eqb o o' | _ => false end.

Definition run_regex (cr : bool * Regex.re) (v : value) : option bool :=
  match v with VStr t => Regex.run cr t | _ => Some false end.

Definition at_least (bound : spec_float) (v : value) : bool :=
  match Num.of_value v with
  | Some d => Num.le (Num.of_float bound) d
  | None => false
  end.

Definition at_most (bound : spec_float) (v : value) : bool :=
  match Num.of_value v with
  | Some d => Num.le d (Num.of_float bound)
  | None => false
  end.

Definition bound_modelled (b : option spec_float) : bool :=
  match b with Some f => negb (Num.is_nan (Num.of_float f)) | None => true end.

(** Whether a field meets a condition.  A bound that is not a number is
    outside the model ([None]), as is a pattern or subject outside the
    regular-expression fragment. *)
Definition holds (c : condition) (field : option value) : option bool :=
  let vs := candidates field in
  match c with
  | CEqStr s => Some (existsb (eq_str s) vs)
  | CEqBool b => Some (existsb (eq_bool b) vs)
  | CEqOid o => Some (existsb (eq_oid o) vs)
  | CRegex p o =>
      cr ← Regex.compile p o;
      bs ← mapM (run_regex cr) vs;
      Some (existsb id bs)
  | CRange gte lte =>
      if bound_modelled gte && bound_modelled lte then
        Some (match gte with Some a => existsb (at_least a) vs | None => true end
              && match lte with Some b => existsb (at_most b) vs | None => true end)
      else None
  end.

(** A document matches a filter when every condition of the filter holds
    of the field it names. *)
Definition matches_filter (filt : filter) (d : doc) : option bool :=
  bs ← mapM (λ kc : string * condition, holds kc.2 (d !! kc.1)) (map_to_list filt);
  Some (forallb id bs).

Fixpoint find (coll : list doc) (filt : filter) : option (list doc) :=
  match coll with
  | [] => Some []
  | d :: coll' =>
      b ← matches_filter filt d;
      rest ← find coll' filt;
      Some (if (b : bool) then d :: rest else rest)
  end.

Definition find_one (coll : list doc) (filt : filter) : option (option doc) :=
  head <$> find coll filt.

(** [cursor.skip(skip).limit(limit)].  The handlers are only entered with
    [skip >= 0] and [limit >= 1]; other values are outside the model. *)
Definition skip_limit (skip limit : Z) (l : list doc) : option (list doc) :=
  if (0 <=? skip) && (1 <=? limit)
  then Some (take (Z.to_nat limit) (drop (Z.to_nat skip) l))
  else None.

(** [cursor.sort("_id", -1)] for documents whose identifier is a
    twelve-byte [ObjectId]: descending by identifier. *)
Definition oid_of (d : doc) : option N :=
  match d !! "_id" with
  | Some (VOid o) => if (oid_size o =? 12)%nat then Some (oid_value o) else None
  | _ => None
  end.

Fixpoint insert_desc (k : N) (d : doc) (l : list (N * doc)) : list (N * doc) :=
  match l with
  | [] => [(k, d)]
  | (k', d') :: l' =>
      if (k' <? k)%N then (k, d) :: l else (k', d') :: insert_desc k d l'
  end.

Definition sort_id_desc (l : list doc) : option (list doc) :=
  keyed ← mapM (λ d : doc, k ← oid_of d; Some (k, d)) l;
  Some ((foldr (λ (kd : N * doc) acc, insert_desc kd.1 kd.2 acc) [] keyed).*2).

Record Database := mkDatabase {
  collections : gmap string (list doc);
  next_oid : N
}.

(** [db[name]] *)
Definition collection (db : Database) (name : string) : list doc :=
  default [] (collections db !! name).

Definition count_documents (coll : list doc) (filt : filter) : option nat :=
  length <$> find coll filt.

(** An integer that fits the eight bytes the store's encoding has for
    one. *)
Definition int64 (z : Z) : bool :=
  (-9223372036854775808 <=? z) && (z <? 9223372036854775808).

(** What the encoder accepts, of the values modelled here: everything but
    an integer beyond eight bytes, for which it raises [OverflowError],
    wherever in the document the integer sits. *)
Fixpoint bson_encodable (v : value) : bool :=
  match v with
  | VInt z => int64 z
  | VList l => forallb bson_encodable l
  | VDict d => map_fold (λ _ v' acc, bson_encodable v' && acc) true d
  | _ => true
  end.

(** A call that returns, or raises an exception nothing in [main.py]
    catches. *)
Inductive outcome (A : Type) :=
| Done (a : A)
| Raised.
Arguments Done {A} a.
Arguments Raised {A}.

(** [db[name].insert_one(d)]: a document without ["_id"] is given a new
    identifier and encoded; if the encoder raises, nothing is stored;
    otherwise the document is appended and the identifier returned.

    The driver builds the identifier from the time, a value drawn once
    per process and a counter it increments; of this the model keeps the
    counter, [next_oid], so that identifiers are new and nothing else.
    Outside the model: a document that brings its own ["_id"], and the
    store's limit on the size of a document. *)
Definition insert_one (db : Database) (name : string) (d : doc)
  : option (outcome (ObjectId * Database)) :=
  match d !! "_id" with
  | Some _ => None
  | None =>
      let o := mkObjectId (next_oid db) in
      if bson_encodable (VDict d) then
        Some (Done (o, mkDatabase
                 (<[name := (collection db name ++ [<["_id" := VOid o]> d])%list]> (collections db))
                 (next_oid db + 1)))
      else Some Raised
  end.

(** [db[name].insert_many(ds)].  A batch with a document the encoder
    refuses is outside the model. *)
Fixpoint insert_many (db : Database) (name : string) (ds : list doc)
  : option Database :=
  match ds with
  | [] => Some db
  | d :: ds' =>
      r ← insert_one db name d;
      match r with
      | Done (_, db') => insert_many db' name ds'
      | Raised => None
      end
  end.

(** Modelled from the spec: [database.create_document] is imported by
    [main.py] but is not among the sources.  The spec gives the store
    operation as [insert(collection, document) -> identifier]; the
    identifier goes into a JSON response, so it is the identifier's
    text.  What the insert raises, it raises. *)
Definition create_document (db : Database) (name : string) (data : doc)
  : option (outcome (string * Database)) :=
  r ← insert_one db name data;
  Some match r with
       | Done (o, db') => Done (ObjectId_str o, db')
       | Raised => Raised
       end.

End Store.
Export Store.

(** ** Schemas ([schemas.py]) and request models ([main.py]) *)

Record OrderItem := mkOrderItem {
  product_id : string;
  item_title : string;
  item_price : spec_float;
  quantity : Z;
  item_thumbnail : option string
}.

Record ShippingInfo := mkShippingInfo {
  full_name : string;
  shipping_email : string;
  phone : string;
  address : string;
  city : string;
  postal_code : string;
  country : string;
  shipping_method : string
}.

Record PaymentInfo := mkPaymentInfo {
  method : string;
  payment_status : string
}.

Record Order := mkOrder {
  items : list OrderItem;
  subtotal : spec_float;
  shipping_cost : spec_float;
  total : spec_float;
  shipping : ShippingInfo;
  payment : PaymentInfo;
  order_status : string
}.

Record ContactIn := mkContactIn {
  contact_name : string;
  contact_email : string;
  message : string
}.

Record RegisterIn := mkRegisterIn {
  name : string;
  email : string;
  password : string
}.

Record LoginIn := mkLoginIn {
  login_email : string;
  login_password : string
}.

Definition opt_str (o : option string) : value :=
  match o with Some s => VStr s | None => VNone end.

(** [model_dump()]: the dictionary of a validated model, every declared
    field present. *)
Definition dump_OrderItem (i : OrderItem) : doc :=
  <["product_id" := VStr (product_id i)]>
  (<["title" := VStr (item_title i)]>
  (<["price" := VFloat (item_price i)]>
  (<["quantity" := VInt (quantity i)]>
  (<["thumbnail" := opt_str (item_thumbnail i)]> ∅)))).

Definition dump_ShippingInfo (s : ShippingInfo) : doc :=
  <["full_name" := VStr (full_name s)]>
  (<["email" := VStr (shipping_email s)]>
  (<["phone" := VStr (phone s)]>
  (<["address" := VStr (address s)]>
  (<["city" := VStr (city s)]>
  (<["postal_code" := VStr (postal_code s)]>
  (<["country" := VStr (country s)]>
  (<["shipping_method" := VStr (shipping_method s)]> ∅))))))).

Definition dump_PaymentInfo (p : PaymentInfo) : doc :=
  <["method" := VStr (method p)]> (<["status" := VStr (payment_status p)]> ∅).

Definition dump_Order (o : Order) : doc :=
  <["items" := VList (VDict <$> (dump_OrderItem <$> items o))]>
  (<["subtotal" := VFloat (subtotal o)]>
  (<["shipping_cost" := VFloat (shipping_cost o)]>
  (<["total" := VFloat (total o)]>
  (<["shipping" := VDict (dump_ShippingInfo (shipping o))]>
  (<["payment" := VDict (dump_PaymentInfo (payment o))]>
  (<["status" := VStr (order_status o)]> ∅)))))).

Definition dump_ContactIn (c : ContactIn) : doc :=
  <["name" := VStr (contact_name c)]>
  (<["email" := VStr (contact_email c)]>
  (<["message" := VStr (message c)]> ∅)).

Definition dump_RegisterIn (u : RegisterIn) : doc :=
  <["name" := VStr (name u)]>
  (<["email" := VStr (email u)]>
  (<["password" := VStr (password u)]> ∅)).

(** ** Responses *)

(** What a request is answered with: the handler's return value (status
    200), an [HTTPException] the handler raised, the framework's own
    answer to a request that fails the declared validation, or its answer
    to an exception the handler lets through.  [main.py] installs no
    exception handler, so these two are the framework's defaults, status
    422 and status 500. *)
Inductive response :=
| Json (body : value)
| HTTPException (status_code : Z) (detail : string)
| RequestValidationError
| InternalServerError.

Definition status (r : response) : Z :=
  match r with
  | Json _ => 200
  | HTTPException c _ => c
  | RequestValidationError => 422
  | InternalServerError => 500
  end.

(** ** Handlers ([main.py])

    [db : option Database] is the module-level handle, [None] when the
    store is not available. *)

(** [not doc] for the result of [find_one]. *)
Definition not_doc (d : option doc) : bool :=
  match d with None => true | Some m => map_is_empty m end.

(** [if q:] for an optional string. *)
Definition str_given (o : option string) : bool :=
  match o with Some s => negb (String.eqb s "") | None => false end.

(** [if price_range:] for the dictionary that holds the given bounds. *)
Definition range_given (gte lte : option spec_float) : bool :=
  match gte, lte with None, None => false | _, _ => true end.

(** The filter [list_products] builds, statement by statement. *)
Definition products_filter (q category : option string)
    (min_price max_price min_rating : option spec_float)
    (featured : option bool) : filter :=
  let filt : filter := ∅ in
  let filt :=
    if str_given q then <["title" := CRegex (default "" q) "i"]> filt else filt in
  let filt :=
    if str_given category then <["category" := CEqStr (default "" category)]> filt
    else filt in
  let filt :=
    if range_given min_price max_price
    then <["price" := CRange min_price max_price]> filt else filt in
  let filt :=
    match min_rating with
    | Some r => <["rating" := CRange (Some r) None]> filt
    | None => filt
    end in
  match featured with
  | Some b => <["featured" := CEqBool b]> filt
  | None => filt
  end.

Definition serialize_all (l : list doc) : option value :=
  l' ← mapM serialize_doc l; Some (VList (VDict <$> l')).

Definition list_products (db : option Database) (q category : option string)
    (min_price max_price min_rating : option spec_float)
    (featured : option bool) (limit skip : Z) : option response :=
  match db with
  | None => Some (Json (VList []))
  | Some db =>
      let filt := products_filter q category min_price max_price min_rating featured in
      found ← find (collection db "product") filt;
      cursor ← skip_limit skip limit found;
      items ← serialize_all cursor;
      Some (Json items)
  end.

(** [get_product] and [get_blog] differ only in the collection. *)
Definition get_by_id (coll : string) (db : option Database) (id : string)
  : option response :=
  match db with
  | None => Some (HTTPException 404 "Not found")
  | Some db =>
      match ObjectId_parse id with
      | None => Some (HTTPException 400 "Invalid id")
      | Some o =>
          d ← find_one (collection db coll) {["_id" := CEqOid o]};
          if not_doc d then Some (HTTPException 404 "Not found")
          else d' ← d ≫= serialize_doc; Some (Json (VDict d'))
      end
  end.

Definition get_product := get_by_id "product".
Definition get_blog := get_by_id "blogpost".

Definition list_blogs (db : option Database) (limit skip : Z) : option response :=
  match db with
  | None => Some (Json (VList []))
  | Some db =>
      found ← find (collection db "blogpost") ∅;
      sorted ← sort_id_desc found;
      cursor ← skip_limit skip limit sorted;
      items ← serialize_all cursor;
      Some (Json items)
  end.

Definition default_payment : doc :=
  <["method" := VStr "cod"]> (<["status" := VStr "pending"]> ∅).

(** [d.get(k, v)] *)
Definition dict_get (d : doc) (k : string) (v : value) : value :=
  default v (d !! k).

Definition create_order (db : option Database) (order : Order)
  : option (response * option Database) :=
  match db with
  | None => Some (HTTPException 500 "Database not available", None)
  | Some db =>
      let order_dict := dump_Order order in
      let order_dict :=
        <["payment" := dict_get order_dict "payment" (VDict default_payment)]> order_dict in
      r ← insert_one db "order" order_dict;
      match r with
      | Raised => Some (InternalServerError, Some db)
      | Done (inserted_id, db') =>
          let payment_url :=
            "https://example-pay.test/checkout/" ++ ObjectId_str inserted_id in
          Some (Json (VDict (<["order_id" := VStr (ObjectId_str inserted_id)]>
                            (<["status" := VStr "created"]>
                            (<["payment_url" := VStr payment_url]> ∅)))),
                Some db')
      end
  end.

Definition submit_contact (db : option Database) (payload : ContactIn)
  : option (response * option Database) :=
  match db with
  | None => Some (Json (VDict {["status" := VStr "received"]}), None)
  | Some db =>
      r ← create_document db "contact" (dump_ContactIn payload);
      match r with
      | Raised => Some (InternalServerError, Some db)
      | Done (_id, db') =>
          Some (Json (VDict (<["status" := VStr "ok"]> (<["id" := VStr _id]> ∅))),
                Some db')
      end
  end.

Definition register (db : option Database) (user : RegisterIn)
  : option (response * option Database) :=
  match db with
  | None => Some (Json (VDict {["status" := VStr "ok"]}), None)
  | Some db =>
      existing ← find_one (collection db "user") {["email" := CEqStr (email user)]};
      if negb (not_doc existing)
      then Some (HTTPException 400 "Email already registered", Some db)
      else
        r ← create_document db "user" (dump_RegisterIn user);
        match r with
        | Raised => Some (InternalServerError, Some db)
        | Done (_id, db') =>
            Some (Json (VDict (<["status" := VStr "ok"]> (<["user_id" := VStr _id]> ∅))),
                  Some db')
        end
  end.

Definition login (db : option Database) (payload : LoginIn) : option response :=
  match db with
  | None =>
      Some (Json (VDict (<["status" := VStr "ok"]> (<["token" := VStr "demo-token"]> ∅))))
  | Some db =>
      found ← find_one (collection db "user")
                (<["email" := CEqStr (login_email payload)]>
                 {["password" := CEqStr (login_password payload)]});
      if not_doc found then Some (HTTPException 401 "Invalid credentials")
      else
        u ← found ≫= serialize_doc;
        Some (Json (VDict (<["status" := VStr "ok"]>
                          (<["token" := VStr "demo-token"]>
                          (<["user" := VDict u]> ∅)))))
  end.

(** ** Seed data ([seed_database]) *)

Definition sample_products : list doc :=
  [ <["title" := VStr "Glass Card Pro"]>
    (<["description" := VStr "Premium transparent credit card with NFC and rewards."]>
    (<["price" := VFloat Num.f199]>
    (<["category" := VStr "Cards"]>
    (<["stock" := VInt 50]>
    (<["rating" := VFloat Num.f4_8]>
    (<["images" := VList
         [VStr "https://images.unsplash.com/photo-1556742393-d75f468bfcb0?auto=format&fit=crop&w=1200&q=60";
          VStr "https://images.unsplash.com/photo-1542744094-24638eff58bb?auto=format&fit=crop&w=1200&q=60"]]>
    (<["thumbnail" := VStr "https://images.unsplash.com/photo-1556742393-d75f468bfcb0?auto=format&fit=crop&w=800&q=60"]>
    (<["featured" := VBool true]> ∅))))))));
    <["title" := VStr "Metal Card X"]>
    (<["description" := VStr "Brushed metal card with concierge and lounge access."]>
    (<["price" := VFloat Num.f299]>
    (<["category" := VStr "Cards"]>
    (<["stock" := VInt 20]>
    (<["rating" := VFloat Num.f4_9]>
    (<["images" := VList
         [VStr "https://images.unsplash.com/photo-1517245386807-bb43f82c33c4?auto=format&fit=crop&w=1200&q=60"]]>
    (<["thumbnail" := VStr "https://images.unsplash.com/photo-1517245386807-bb43f82c33c4?auto=format&fit=crop&w=800&q=60"]>
    (<["featured" := VBool true]> ∅))))))));
    <["title" := VStr "Card Sleeve"]>
    (<["description" := VStr "Minimalist leather sleeve with RFID protection."]>
    (<["price" := VFloat Num.f29]>
    (<["category" := VStr "Accessories"]>
    (<["stock" := VInt 200]>
    (<["rating" := VFloat Num.f4_6]>
    (<["images" := VList
         [VStr "https://images.unsplash.com/photo-1555529771-35a38c3c12c1?auto=format&fit=crop&w=1200&q=60"]]>
    (<["thumbnail" := VStr "https://images.unsplash.com/photo-1555529771-35a38c3c12c1?auto=format&fit=crop&w=800&q=60"]>
    (<["featured" := VBool false]> ∅)))))))) ].

Definition sample_posts : list doc :=
  [ <["title" := VStr "Designing the Future of Payments"]>
    (<["excerpt" := VStr "A look into glassmorphism and 3D in fintech UI."]>
    (<["content" := VStr "Modern fintech combines security and delightful experiences..."]>
    (<["thumbnail" := VStr "https://images.unsplash.com/photo-1553729459-efe14ef6055d?auto=format&fit=crop&w=1000&q=60"]>
    (<["author" := VStr "Admin"]>
    (<["tags" := VList [VStr "design"; VStr "fintech"]]> ∅)))));
    <["title" := VStr "How We Built Metal Card X"]>
    (<["excerpt" := VStr "Materials, durability, and sustainable sourcing."]>
    (<["content" := VStr "The Metal Card X project started with a mission..."]>
    (<["thumbnail" := VStr "https://images.unsplash.com/photo-1498050108023-c5249f4df085?auto=format&fit=crop&w=1000&q=60"]>
    (<["author" := VStr "Admin"]>
    (<["tags" := VList [VStr "hardware"; VStr "product"]]> ∅))))) ].

Definition seed_database (db : option Database) : option (option Database) :=
  match db with
  | None => Some None
  | Some db =>
      n ← count_documents (collection db "product") ∅;
      db1 ← (if (n =? 0)%nat then insert_many db "product" sample_products else Some db);
      m ← count_documents (collection db1 "blogpost") ∅;
      db2 ← (if (m =? 0)%nat then insert_many db1 "blogpost" sample_posts else Some db1);
      Some (Some db2)
  end.

(** A store that holds nothing yet, and the store after the first start. *)
Definition empty_database : Database := mkDatabase ∅ 0.

Definition seeded_database : option Database :=
  mjoin (seed_database (Some empty_database)).

Definition seeded : Database := default empty_database seeded_database.

(** ** The request boundary

    The framework validates the declared parameters before it calls the
    handler, whatever the state of the store.  A query parameter arrives
    here already converted to its declared type; [None] is a parameter the
    request does not carry. *)

(** [Query(..., ge=a)] and [Query(..., le=b)] on a float. *)
Definition float_ge (bound v : spec_float) : bool := Num.le (Num.of_float bound) (Num.of_float v).
Definition float_le (bound v : spec_float) : bool := Num.le (Num.of_float v) (Num.of_float bound).

Definition opt_check {A} (check : A → bool) (o : option A) : bool :=
  match o with Some a => check a | None => true end.

Record ProductsQuery := mkProductsQuery {
  pq_q : option string;
  pq_category : option string;
  pq_min_price : option spec_float;
  pq_max_price : option spec_float;
  pq_min_rating : option spec_float;
  pq_featured : option bool;
  pq_limit : option Z;
  pq_skip : option Z
}.

(** [limit: int = Query(dflt, ge=1, le=100)], [skip: int = Query(0, ge=0)] *)
Definition limit_ok (limit : Z) : bool := (1 <=? limit) && (limit <=? 100).
Definition skip_ok (skip : Z) : bool := 0 <=? skip.

Definition products_query_ok (r : ProductsQuery) : bool :=
  opt_check (float_ge Num.f0) (pq_min_price r)
  && opt_check (float_ge Num.f0) (pq_max_price r)
  && opt_check (λ v, float_ge Num.f0 v && float_le Num.f5 v) (pq_min_rating r)
  && limit_ok (default 50 (pq_limit r))
  && skip_ok (default 0 (pq_skip r)).

(** GET /api/products *)
Definition GET_products (db : option Database) (r : ProductsQuery) : option response :=
  if products_query_ok r then
    list_products db (pq_q r) (pq_category r) (pq_min_price r) (pq_max_price r)
      (pq_min_rating r) (pq_featured r) (default 50 (pq_limit r)) (default 0 (pq_skip r))
  else Some RequestValidationError.

(** GET /api/blogs *)
Definition GET_blogs (db : option Database) (limit skip : option Z) : option response :=
  if limit_ok (default 20 limit) && skip_ok (default 0 skip)
  then list_blogs db (default 20 limit) (default 0 skip)
  else Some RequestValidationError.

(** *** Request bodies

    A JSON body is checked against the schema class of the handler's
    parameter: a field declared without a default must be present, a field
    with a default may be absent, and every present field must pass the
    validation of its type.  How the scalar types are validated belongs to
    the validation library and is taken as given. *)

Section Body.

Variable validate_str : value → option string.
Variable validate_float : value → option spec_float.
Variable validate_int : value → option Z.
Variable validate_email : value → option string.

Definition as_dict (v : value) : option doc :=
  match v with VDict d => Some d | _ => None end.

Definition as_list (v : value) : option (list value) :=
  match v with VList l => Some l | _ => None end.

(** A field declared without a default ([Field(...)], or a bare annotation). *)
Definition required {A} (validate : value → option A) (d : doc) (k : string) : option A :=
  d !! k ≫= validate.

(** A field declared with a default. *)
Definition defaulted {A} (validate : value → option A) (dflt : A) (d : doc) (k : string)
  : option A :=
  match d !! k with Some v => validate v | None => Some dflt end.

(** [Optional[T] = None] *)
Definition optional {A} (validate : value → option A) (d : doc) (k : string)
  : option (option A) :=
  match d !! k with
  | None | Some VNone => Some None
  | Some v => Some <$> validate v
  end.

Definition validate_OrderItem (v : value) : option OrderItem :=
  d ← as_dict v;
  a ← required validate_str d "product_id";
  b ← required validate_str d "title";
  c ← required validate_float d "price";
  e ← required validate_int d "quantity";
  f ← optional validate_str d "thumbnail";
  Some (mkOrderItem a b c e f).

Definition validate_ShippingInfo (v : value) : option ShippingInfo :=
  d ← as_dict v;
  a ← required validate_str d "full_name";
  b ← required validate_email d "email";
  c ← required validate_str d "phone";
  e ← required validate_str d "address";
  f ← required validate_str d "city";
  g ← required validate_str d "postal_code";
  h ← required validate_str d "country";
  i ← defaulted validate_str "standard" d "shipping_method";
  Some (mkShippingInfo a b c e f g h i).

Definition validate_PaymentInfo (v : value) : option PaymentInfo :=
  d ← as_dict v;
  a ← defaulted validate_str "cod" d "method";
  b ← defaulted validate_str "pending" d "status";
  Some (mkPaymentInfo a b).

Definition validate_Order (v : value) : option Order :=
  d ← as_dict v;
  a ← required (λ x, as_list x ≫= mapM validate_OrderItem) d "items";
  b ← required validate_float d "subtotal";
  c ← required validate_float d "shipping_cost";
  e ← required validate_float d "total";
  f ← required validate_ShippingInfo d "shipping";
  g ← required validate_PaymentInfo d "payment";
  h ← defaulted validate_str "created" d "status";
  Some (mkOrder a b c e f g h).

(** POST /api/orders *)
Definition POST_orders (db : option Database) (body : value)
  : option (response * option Database) :=
  match validate_Order body with
  | Some order => create_order db order
  | None => Some (RequestValidationError, db)
  end.

End Body.

(** ** Notions the properties are stated with *)

(** The public form of a document whose identifier is [o]: ["_id"] removed,
    its text under ["id"]. *)
Definition public_form (o : ObjectId) (d : doc) : doc :=
  <["id" := VStr (ObjectId_str o)]> (delete "_id" d).

(** Every document of a collection carries an identifier the store
    assigned. *)
Definition well_identified (coll : list doc) : Prop :=
  Forall (λ d, ∃ o, d !! "_id" = Some (VOid o)) coll.

(** The document's ["_id"] is the identifier [o]. *)
Definition has_oid (o : ObjectId) (d : doc) : bool :=
  match d !! "_id" with
  | Some (VOid o') => oid_eqb o o'
  | _ => false
  end.

(** A query text with no character that means something in a pattern. *)
Definition plain_char (c : ascii) : bool := Regex.is_ascii c && negb (Regex.is_meta c).

Definition plain (q : string) : bool := forallb plain_char (list_ascii_of_string q).

Definition ascii_text (t : string) : bool :=
  forallb Regex.is_ascii (list_ascii_of_string t).

(** The pattern that spells [q] character by character. *)
Fixpoint literal (q : list ascii) : Regex.re :=
  match q with
  | [] => Regex.Eps
  | c :: q' => Regex.Cat (Regex.Chr c) (literal q')
  end.

(** The product's title is a string that contains [q], caselessly. *)
Definition title_contains (q : string) (d : doc) : bool :=
  match d !! "title" with Some (VStr t) => ci_contains q t | _ => false end.

(** The document as a caller sees it, when the store assigned its
    identifier. *)
Definition publish (d : doc) : doc :=
  match d !! "_id" with Some (VOid o) => public_form o d | _ => d end.

(** The user document holds the string [e] as its email. *)
Definition has_email (e : string) (d : doc) : bool :=
  match d !! "email" with Some (VStr e') => String.eqb e e' | _ => false end.

(** The price is a float within the given bounds, each bound inclusive and
    an absent bound no constraint. *)
Definition price_within (lo hi : option spec_float) (d : doc) : bool :=
  match d !! "price" with
  | Some (VFloat p) =>
      opt_check (λ a, Num.le (Num.of_float a) (Num.of_float p)) lo
      && opt_check (λ b, Num.le (Num.of_float p) (Num.of_float b)) hi
  | _ => false
  end.

(** What the filter [{"email": e}] asks of a document. *)
Definition email_matches (e : string) (d : doc) : bool :=
  existsb (eq_str e) (candidates (d !! "email")).

(** A stored document, an unsaved one that already has an ["id"] field, and
    the identifier of the first. *)
Definition example_oid : ObjectId := mkObjectId 1.

Definition stored_example : doc :=
  <["_id" := VOid example_oid]> {["title" := VStr "Card Sleeve"]}.

Definition unsaved_example : doc :=
  <["id" := VStr "abc"]> {["title" := VStr "Card Sleeve"]}.

(** A checkable form of [well_identified]. *)
Definition well_identified_b (coll : list doc) : bool :=
  forallb (λ d : doc, match d !! "_id" with Some (VOid _) => true | _ => false end) coll.

(** The bounds of the price scenario, 100.0 and 250.0. *)
Definition f100 : spec_float := S754_finite false 7036874417766400 (-46).
Definition f250 : spec_float := S754_finite false 8796093022208000 (-45).

(** The first seed product as the store holds it after seeding. *)
Definition glass_card_pro : doc :=
  <["_id" := VOid (mkObjectId 0)]> (default ∅ (head sample_products)).

(** The number of elements of a list response. *)
Definition listed (r : option response) : option nat :=
  r ≫= λ r, match r with Json (VList l) => Some (length l) | _ => None end.

(** An order body with every field of the schema except ["payment"]. *)
Definition order_without_payment : value :=
  VDict (<["items" := VList []]>
        (<["subtotal" := VFloat Num.f0]>
        (<["shipping_cost" := VFloat Num.f0]>
        (<["total" := VFloat Num.f0]>
        (<["shipping" := VDict
             (<["full_name" := VStr "A"]>
             (<["email" := VStr "a@x.com"]>
             (<["phone" := VStr "1"]>
             (<["address" := VStr "1 Main St"]>
             (<["city" := VStr "Town"]>
             (<["postal_code" := VStr "00000"]>
             (<["country" := VStr "NL"]> ∅)))))))]> ∅))))).

(** A checkable form of "every title is an ASCII string". *)
Definition ascii_titles_b (coll : list doc) : bool :=
  forallb (λ d : doc, match d !! "title" with Some (VStr t) => ascii_text t | _ => false end)
    coll.

(** The registration of the duplicate-email scenario, the same with the
    email in another case, and the store after the first registration. *)
Definition user_a : RegisterIn := mkRegisterIn "A" "a@x.com" "p".
Definition user_a_upper : RegisterIn := mkRegisterIn "A" "A@X.COM" "p".

Definition stored_user_a : doc :=
  <["_id" := VOid (mkObjectId (next_oid seeded))]> (dump_RegisterIn user_a).

Definition after_first_registration : Database :=
  mkDatabase (<["user" := [stored_user_a]]> (collections seeded)) (next_oid seeded + 1).

(** The invariants of the store under this API: every document of every
    collection carries a store-assigned identifier, and every stored user
    holds a string as its email. *)
Definition db_well_identified (db : Database) : Prop :=
  ∀ name, well_identified (collection db name).

Definition users_have_emails (db : Database) : Prop :=
  Forall (λ d : doc, ∃ e, d !! "email" = Some (VStr e)) (collection db "user").

(** ** Further source functions and the notions their properties use *)

From Stdlib Require Import Sorting.Sorted.

(** [PyObjectId.validate] ([main.py]):
    <<
    if isinstance(v, ObjectId): return v
    if not ObjectId.is_valid(v): raise ValueError("Invalid objectid")
    return ObjectId(v)
    >>
    [ObjectId.is_valid] is false for a value that is false and for every
    value whose conversion raises: of the values modelled here, everything
    but an identifier and a string that [ObjectId_parse] reads.  [None] is
    the [ValueError]. *)
Definition PyObjectId_validate (v : value) : option ObjectId :=
  match v with
  | VOid o => Some o
  | VStr s => ObjectId_parse s
  | _ => None
  end.

(** A document shaped as the [Product] schema has it, for the fields the
    listing filters on: strings for title and category, floats for price
    and rating, a boolean for featured. *)
Definition product_shaped (d : doc) : Prop :=
  ∃ t c p r f,
    d !! "title" = Some (VStr t) ∧ ascii_text t = true
    ∧ d !! "category" = Some (VStr c)
    ∧ d !! "price" = Some (VFloat p)
    ∧ d !! "rating" = Some (VFloat r)
    ∧ d !! "featured" = Some (VBool f).

Definition has_category (c : string) (d : doc) : bool :=
  match d !! "category" with Some (VStr c') => String.eqb c c' | _ => false end.

Definition rating_at_least (r : spec_float) (d : doc) : bool :=
  match d !! "rating" with
  | Some (VFloat x) => Num.le (Num.of_float r) (Num.of_float x)
  | _ => false
  end.

Definition is_featured (b : bool) (d : doc) : bool :=
  match d !! "featured" with Some (VBool b') => Bool.eqb b b' | _ => false end.

(** The conjunction of the predicates a product listing was given. *)
Definition product_selected (q category : option string)
    (lo hi min_rating : option spec_float) (featured : option bool) (d : doc) : bool :=
  (if str_given q then title_contains (default "" q) d else true)
  && (if str_given category then has_category (default "" category) d else true)
  && (if range_given lo hi then price_within lo hi d else true)
  && (match min_rating with Some r => rating_at_least r d | None => true end)
  && (match featured with Some b => is_featured b d | None => true end).

(** The query text is absent, empty, or plain. *)
Definition plain_or_absent (q : option string) : bool :=
  match q with Some s => plain s | None => true end.

(** The identifiers of a collection are increasing in insertion order and
    below [n]: what a store that hands out [next_oid] keeps true. *)
Definition ordered_below (n : N) (coll : list doc) : Prop :=
  ∃ ks, mapM oid_of coll = Some ks
        ∧ StronglySorted N.lt ks
        ∧ Forall (λ k, (k < n)%N) ks.

Definition db_ordered (db : Database) : Prop :=
  ∀ name, ordered_below (next_oid db) (collection db name).

(** The user document holds the string [p] as its password. *)
Definition has_password (p : string) (d : doc) : bool :=
  match d !! "password" with Some (VStr p') => String.eqb p p' | _ => false end.

(** Every stored user holds strings as email and password. *)
Definition users_shaped (db : Database) : Prop :=
  Forall (λ d : doc, ∃ e p, d !! "email" = Some (VStr e) ∧ d !! "password" = Some (VStr p))
    (collection db "user").

(** The body of a successful login. *)
Definition login_body (user : doc) : value :=
  VDict (<["status" := VStr "ok"]>
        (<["token" := VStr "demo-token"]>
        (<["user" := VDict user]> ∅))).

(** The document [insert_one] stores for [d] in a store [db]. *)
Definition stored_as (db : Database) (d : doc) : doc :=
  <["_id" := VOid (mkObjectId (next_oid db))]> d.

(** The store after [d] was inserted into the collection [name]. *)
Definition with_inserted (db : Database) (name : string) (d : doc) : Database :=
  mkDatabase (<[name := (collection db name ++ [stored_as db d])%list]> (collections db))
             (next_oid db + 1).

(** A checkable form of [product_shaped]. *)
Definition product_shaped_b (d : doc) : bool :=
  match d !! "title", d !! "category", d !! "price", d !! "rating", d !! "featured" with
  | Some (VStr t), Some (VStr _), Some (VFloat _), Some (VFloat _), Some (VBool _) =>
      ascii_text t
  | _, _, _, _, _ => false
  end.

(** A float that is not at least zero: a NaN, or a value with the sign bit
    set other than [-0.0]. *)
Definition negative_or_nan (v : spec_float) : bool :=
  match v with
  | S754_nan | S754_infinity true | S754_finite true _ _ => true
  | _ => false
  end.

(** 4.85, between the ratings 4.8 and 4.9 of the seed data. *)
Definition f4_85 : spec_float := S754_finite false 5460614548186726 (-50).

(** Scalar validators to try the body validation with: a string is
    accepted for a string field, a float or an integer for a number. *)
Definition accept_str (v : value) : option string :=
  match v with VStr s => Some s | _ => None end.

Definition accept_float (v : value) : option spec_float :=
  match v with VFloat f => Some f | _ => None end.

Definition accept_int (v : value) : option Z :=
  match v with VInt z => Some z | _ => None end.

(** The order body of [order_without_payment] with an empty payment
    object. *)
Definition order_with_empty_payment : value :=
  match order_without_payment with
  | VDict d => VDict (<["payment" := VDict ∅]> d)
  | v => v
  end.

(** The response of a created order whose identifier is [o]. *)
Definition order_created (o : ObjectId) : response :=
  Json (VDict (<["order_id" := VStr (ObjectId_str o)]>
              (<["status" := VStr "created"]>
              (<["payment_url" :=
                   VStr ("https://example-pay.test/checkout/" ++ ObjectId_str o)]> ∅)))).

(** The two steps of [seed_database], each on its own collection. *)
Definition seed_step (db : Database) (name : string) (samples : list doc)
  : option Database :=
  n ← count_documents (collection db name) ∅;
  if (n =? 0)%nat then insert_many db name samples else Some db.

(** Documents whose ["_id"] is not a store-assigned identifier: the
    integer zero, and a string. *)
Definition zero_id_example : doc :=
  <["_id" := VInt 0]> {["title" := VStr "Card Sleeve"]}.

Definition string_id_example : doc :=
  <["_id" := VStr "sku-1"]> {["title" := VStr "Card Sleeve"]}.

(** The documents [ds] as the store holds them when it gave them the
    identifiers from [n] on. *)
Fixpoint stored_from (n : N) (ds : list doc) : list doc :=
  match ds with
  | [] => []
  | d :: ds' => <["_id" := VOid (mkObjectId n)]> d :: stored_from (n + 1) ds'
  end.

(** Every quantity of the order fits eight bytes. *)
Definition quantities_fit (order : Order) : bool :=
  forallb (λ i, int64 (quantity i)) (items order).

(** An order of one item, with the quantity given. *)
Definition order_of_quantity (q : Z) : Order :=
  mkOrder [mkOrderItem "p1" "Card Sleeve" Num.f29 q None]
          Num.f29 Num.f0 Num.f29
          (mkShippingInfo "A" "a@x.com" "1" "1 Main St" "Town" "00000" "NL" "standard")
          (mkPaymentInfo "card" "paid") "shipped".

(** * Properties *)

(** ** Dictionaries and truth values *)

Lemma map_is_empty_true {A} (m : gmap string A) : map_is_empty m = true ↔ m = ∅.
Proof.
  unfold map_is_empty. split.
  - destruct (map_to_list m) eqn:E; [|discriminate].
    intros _. by apply map_to_list_empty_iff.
  - intros ->. by rewrite map_to_list_empty.
Qed.

Lemma map_is_empty_false {A} (m : gmap string A) k v :
  m !! k = Some v → map_is_empty m = false.
Proof.
  intros H. destruct (map_is_empty m) eqn:E; [|done].
  apply map_is_empty_true in E. subst. by rewrite lookup_empty in H.
Qed.

Lemma map_is_empty_insert {A} (m : gmap string A) k v :
  map_is_empty (<[k := v]> m) = false.
Proof. apply (map_is_empty_false _ k v). by rewrite lookup_insert_eq. Qed.

Lemma truthy_oid o : truthy (VOid o) = true.
Proof. reflexivity. Qed.

(** ** Serialization *)

Lemma serialize_doc_oid (d : doc) o :
  d !! "_id" = Some (VOid o) → serialize_doc d = Some (public_form o d).
Proof.
  intros H. unfold serialize_doc.
  rewrite (map_is_empty_false _ _ _ H), H. reflexivity.
Qed.

Lemma serialize_doc_no_id (d : doc) :
  d !! "_id" = None →
  serialize_doc d = Some (if map_is_empty d then d else <["id" := VNone]> d).
Proof.
  intros H. unfold serialize_doc. rewrite H. by destruct (map_is_empty d).
Qed.

Lemma serialize_doc_falsy_id (d : doc) v :
  d !! "_id" = Some v → truthy v = false →
  serialize_doc d = Some (<["id" := VNone]> d).
Proof.
  intros H Hv. unfold serialize_doc.
  by rewrite (map_is_empty_false _ _ _ H), H, Hv.
Qed.

Lemma mapM_serialize_oid (l : list doc) :
  Forall (λ d, ∃ o, d !! "_id" = Some (VOid o)) l →
  ∃ l', mapM serialize_doc l = Some l' ∧
        Forall2 (λ d d', ∃ o, d !! "_id" = Some (VOid o) ∧ d' = public_form o d) l l'.
Proof.
  induction 1 as [|d l [o Ho] _ (l' & Hl' & IH)]; simpl.
  - exists []. split; [done|constructor].
  - exists (public_form o d :: l'). split.
    + rewrite (serialize_doc_oid _ _ Ho). simpl. rewrite Hl'. done.
    + constructor; eauto.
Qed.

(** ** The regular-expression matcher *)

Module RegexFacts.
Import Regex.
Local Open Scope list_scope.

Section Matcher.
Variable ci : bool.

Lemma nullable_lang_nil r : nullable r = true → lang ci r [].
Proof.
  induction r; simpl; try discriminate; intros H.
  - constructor.
  - apply andb_prop in H as [H1 H2].
    change (@nil ascii) with (@nil ascii ++ []). constructor; auto.
  - apply orb_prop in H as [H|H]; [apply lang_alt_l | apply lang_alt_r]; auto.
  - constructor.
Qed.

Lemma lang_nil_nullable r s : lang ci r s → s = [] → nullable r = true.
Proof.
  induction 1 as [ | c y Hc | y Hy | y | r1 r2 s1 s2 H1 IH1 H2 IH2
                 | r1 r2 s0 H IH | r1 r2 s0 H IH | r | r s1 s2 H1 IH1 H2 IH2 ];
    simpl; intros E; try discriminate; auto.
  - apply app_eq_nil in E as [-> ->]. by rewrite IH1, IH2.
  - by rewrite IH.
  - rewrite IH; [apply orb_true_r | done].
Qed.

Lemma nullable_spec r : nullable r = true ↔ lang ci r [].
Proof. split; [apply nullable_lang_nil | intros H; by eapply lang_nil_nullable]. Qed.

Lemma deriv_sound x r : ∀ s, lang ci (deriv ci x r) s → lang ci r (x :: s).
Proof.
  induction r; simpl; intros s H.
  - inversion H.
  - inversion H.
  - destruct (chr_eq ci c x) eqn:E; inversion H; subst. by constructor.
  - destruct (is_newline x) eqn:E; inversion H; subst. by constructor.
  - inversion H; subst. constructor.
  - destruct (nullable r1) eqn:E.
    + inversion H; subst.
      * match goal with H' : lang _ (Cat _ _) _ |- _ => inversion H'; subst end.
        change (x :: (s1 ++ s2)) with ((x :: s1) ++ s2). constructor; auto.
      * change (x :: s) with ([] ++ x :: s). constructor; auto.
        by apply nullable_lang_nil.
    + inversion H; subst.
      change (x :: (s1 ++ s2)) with ((x :: s1) ++ s2). constructor; auto.
  - inversion H; subst; [apply lang_alt_l | apply lang_alt_r]; auto.
  - inversion H; subst.
    change (x :: (s1 ++ s2)) with ((x :: s1) ++ s2). constructor; auto.
Qed.

Lemma deriv_complete x r w : lang ci r w → ∀ t, w = x :: t → lang ci (deriv ci x r) t.
Proof.
  induction 1 as [ | c y Hc | y Hy | y | r1 r2 s1 s2 H1 IH1 H2 IH2
                 | r1 r2 s0 H IH | r1 r2 s0 H IH | r | r s1 s2 H1 IH1 H2 IH2 ];
    intros t E; simpl.
  - discriminate.
  - injection E as -> <-. rewrite Hc. constructor.
  - injection E as -> <-. rewrite Hy. constructor.
  - injection E as -> <-. constructor.
  - destruct s1 as [|z s1'].
    + simpl in E. subst s2.
      rewrite (lang_nil_nullable _ _ H1 eq_refl). apply lang_alt_r. by apply IH2.
    + simpl in E. injection E as -> <-.
      assert (lang ci (Cat (deriv ci x r1) r2) (s1' ++ s2)) as Hc
        by (constructor; auto).
      destruct (nullable r1); [by apply lang_alt_l | done].
  - apply lang_alt_l; auto.
  - apply lang_alt_r; auto.
  - discriminate.
  - destruct s1 as [|z s1'].
    + simpl in E. by apply IH2.
    + simpl in E. injection E as -> <-. constructor; auto.
Qed.

Lemma deriv_spec x r s : lang ci (deriv ci x r) s ↔ lang ci r (x :: s).
Proof. split; [apply deriv_sound | intros H; by eapply deriv_complete]. Qed.

Lemma matches_spec s : ∀ r, matches ci r s = true ↔ lang ci r s.
Proof.
  induction s as [|x s IH]; intros r; simpl.
  - apply nullable_spec.
  - rewrite IH. apply deriv_spec.
Qed.

Lemma lang_star_any s : lang ci (Star Any) s.
Proof.
  induction s as [|x s IH]; [constructor|].
  change (x :: s) with ([x] ++ s). constructor; [constructor | done].
Qed.

(** A search succeeds exactly when some substring is a word of the
    pattern. *)
Lemma search_spec r s :
  search ci r s = true ↔ ∃ pre mid post, s = pre ++ mid ++ post ∧ lang ci r mid.
Proof.
  unfold search. rewrite matches_spec. split.
  - intros H. inversion H as [| | | |? ? pre rest Hpre Hrest| | | |]; subst.
    inversion Hrest as [| | | |? ? mid post Hmid Hpost| | | |]; subst.
    eauto.
  - intros (pre & mid & post & -> & H).
    constructor; [apply lang_star_any|]. constructor; [done | apply lang_star_any].
Qed.

Lemma lang_literal q : ∀ s,
  lang ci (literal q) s ↔ Forall2 (λ c x, chr_eq ci c x = true) q s.
Proof.
  induction q as [|c q IH]; intros s; simpl.
  - split.
    + intros H. inversion H. constructor.
    + intros H. inversion H. constructor.
  - split.
    + intros H. inversion H as [| | | |? ? s1 s2 H1 H2| | | |]; subst.
      inversion H1; subst. simpl. constructor; [done | by apply IH].
    + intros H. inversion H as [|? x ? s' Hx Hs]; subst.
      change (x :: s') with ([x] ++ s'). constructor; [by constructor | by apply IH].
Qed.

End Matcher.

(** *** Plain patterns *)

Lemma not_meta_not c d : is_meta c = false → is_meta d = true → Ascii.eqb c d = false.
Proof.
  intros Hc Hd. destruct (Ascii.eqb_spec c d); [congruence | done].
Qed.

Lemma not_meta_not_quantifier c : is_meta c = false → is_quantifier c = false.
Proof.
  intros H. destruct (is_quantifier c) eqn:E; [|done].
  assert (is_meta c = true); [|congruence].
  unfold is_quantifier in E.
  destruct c as [[] [] [] [] [] [] [] []]; try discriminate E; reflexivity.
Qed.

Lemma parse_atom_plain f c rest :
  is_meta c = false → parse_atom (S f) (c :: rest) = Some (Chr c, rest).
Proof.
  intros H. simpl.
  rewrite (not_meta_not c "("%char H eq_refl), (not_meta_not c "\"%char H eq_refl),
    (not_meta_not c "."%char H eq_refl), H. reflexivity.
Qed.

Lemma apply_postfix_plain a s :
  forallb (λ c, negb (is_meta c)) s = true → apply_postfix a s = Some (a, s).
Proof.
  destruct s as [|c s]; [done|]. simpl. intros H.
  apply andb_prop in H as [H _]. apply negb_true_iff in H.
  by rewrite (not_meta_not_quantifier _ H).
Qed.

Lemma parse_seq_plain q : ∀ fuel,
  (length q + 2 ≤ fuel)%nat →
  forallb (λ c, negb (is_meta c)) q = true →
  parse_seq fuel q = Some (literal q, []).
Proof.
  induction q as [|c q IH]; intros fuel Hf Hq.
  - destruct fuel; [simpl in Hf; lia | reflexivity].
  - destruct fuel as [|[|f]]; [simpl in Hf; lia ..|].
    simpl in Hq. apply andb_prop in Hq as [Hc Hq]. apply negb_true_iff in Hc.
    change (parse_seq (S (S f)) (c :: q)) with
      (if (Ascii.eqb c "|" || Ascii.eqb c ")")%char then Some (Eps, c :: q)
       else '(a, rest) ← parse_atom (S f) (c :: q);
            '(a', rest') ← apply_postfix a rest;
            '(r, rest'') ← parse_seq (S f) rest';
            Some (Cat a' r, rest'')).
    rewrite (not_meta_not c "|"%char Hc eq_refl), (not_meta_not c ")"%char Hc eq_refl).
    rewrite (parse_atom_plain _ _ _ Hc). cbn [orb mbind option_bind].
    rewrite (apply_postfix_plain _ _ Hq). cbn [mbind option_bind].
    rewrite IH; [reflexivity | simpl in Hf; lia | done].
Qed.

Lemma parse_alt_plain q fuel :
  (length q + 3 ≤ fuel)%nat →
  forallb (λ c, negb (is_meta c)) q = true →
  parse_alt fuel q = Some (literal q, []).
Proof.
  intros Hf Hq. destruct fuel as [|f]; [lia|].
  change (parse_alt (S f) q) with
    ('(r, rest) ← parse_seq f q;
     match rest with
     | "|"%char :: rest' => '(r2, rest2) ← parse_alt f rest'; Some (Alt r r2, rest2)
     | _ => Some (r, rest)
     end).
  rewrite parse_seq_plain; [reflexivity | lia | done].
Qed.

Lemma parse_plain q :
  forallb (λ c, negb (is_meta c)) q = true → parse q = Some (literal q).
Proof.
  intros Hq. unfold parse. rewrite parse_alt_plain; [reflexivity | lia | done].
Qed.

(** *** Searching for a plain text *)

Lemma ci_prefix_spec q : ∀ t,
  ci_prefix q t = true ↔
  ∃ mid post, t = mid ++ post ∧ Forall2 (λ c x, chr_eq true c x = true) q mid.
Proof.
  induction q as [|c q IH]; intros t; simpl.
  - split; [|done]. intros _. exists [], t. split; [done | constructor].
  - destruct t as [|x t].
    + split; [discriminate|]. intros (mid & post & E & H).
      inversion H; subst. discriminate.
    + rewrite andb_true_iff, IH. split.
      * intros (Hc & mid & post & -> & H). exists (x :: mid), post.
        split; [done | by constructor].
      * intros (mid & post & E & H).
        inversion H as [|? y ? mid' Hy Hmid]; subst.
        injection E as -> ->. eauto.
Qed.

Lemma ci_contains_list_spec q t :
  ci_contains_list q t = true ↔
  ∃ pre mid post, t = pre ++ mid ++ post ∧ Forall2 (λ c x, chr_eq true c x = true) q mid.
Proof.
  induction t as [|x t IH].
  - simpl. rewrite orb_false_r, ci_prefix_spec. split.
    + intros (mid & post & E & H). by exists [], mid, post.
    + intros (pre & mid & post & E & H).
      symmetry in E. apply app_eq_nil in E as [-> E]. eauto.
  - change (ci_contains_list q (x :: t)) with
      (ci_prefix q (x :: t) || ci_contains_list q t).
    rewrite orb_true_iff, ci_prefix_spec, IH. split.
    + intros [(mid & post & E & H) | (pre & mid & post & -> & H)].
      * by exists [], mid, post.
      * by exists (x :: pre), mid, post.
    + intros (pre & mid & post & E & H). destruct pre as [|y pre].
      * left. by exists mid, post.
      * right. injection E as -> ->. by exists pre, mid, post.
Qed.

Lemma search_literal q t : search true (literal q) t = ci_contains_list q t.
Proof.
  apply Bool.eq_iff_eq_true. rewrite search_spec, ci_contains_list_spec.
  split; intros (pre & mid & post & E & H); exists pre, mid, post;
    (split; [done | by apply lang_literal]).
Qed.

Lemma forallb_plain q :
  forallb plain_char q = true →
  forallb is_ascii q = true ∧ forallb (λ c, negb (is_meta c)) q = true.
Proof.
  induction q as [|c q IH]; simpl; [done|].
  unfold plain_char at 1. rewrite !andb_true_iff.
  intros [[H1 H2] H3]. destruct (IH H3). tauto.
Qed.

Lemma compile_plain q :
  plain q = true → compile q "i" = Some (true, literal (list_ascii_of_string q)).
Proof.
  intros H. apply forallb_plain in H as [Ha Hm]. unfold compile.
  rewrite Ha. cbn [mbind option_bind].
  change (parse_options "i") with (Some true). cbn [mbind option_bind].
  by rewrite (parse_plain _ Hm).
Qed.

Lemma run_literal q t :
  ascii_text t = true →
  run (true, literal (list_ascii_of_string q)) t = Some (ci_contains q t).
Proof.
  intros H. unfold run. unfold ascii_text in H. rewrite H. simpl.
  by rewrite search_literal.
Qed.

(** For a plain [q] the store's test is the literal, caseless containment. *)
Lemma regex_search_plain q t :
  plain q = true → ascii_text t = true →
  regex_search q "i" t = Some (ci_contains q t).
Proof.
  intros Hq Ht. unfold regex_search. rewrite (compile_plain _ Hq).
  cbn [mbind option_bind]. by apply run_literal.
Qed.

End RegexFacts.

(** ** The store operations *)

Section StoreFacts.
Local Open Scope list_scope.

Lemma matches_filter_empty (d : doc) : matches_filter ∅ d = Some true.
Proof. unfold matches_filter. by rewrite map_to_list_empty. Qed.

Lemma matches_filter_singleton k c (d : doc) :
  matches_filter {[k := c]} d = holds c (d !! k) ≫= λ b, Some (b && true).
Proof.
  unfold matches_filter. rewrite map_to_list_singleton. simpl.
  by destruct (holds c (d !! k)).
Qed.

Lemma find_filter (f : doc → bool) filt (coll : list doc) :
  Forall (λ d, matches_filter filt d = Some (f d)) coll →
  find coll filt = Some (List.filter f coll).
Proof.
  induction 1 as [|d coll Hd _ IH]; simpl; [done|].
  rewrite Hd, IH. simpl. by destruct (f d).
Qed.

Lemma find_all (coll : list doc) : find coll ∅ = Some coll.
Proof.
  induction coll as [|d coll IH]; simpl; [done|].
  by rewrite matches_filter_empty, IH.
Qed.

Lemma head_filter_find {A} (f : A → bool) (l : list A) :
  head (List.filter f l) = List.find f l.
Proof. induction l as [|a l IH]; simpl; [done|]. by destruct (f a). Qed.

Lemma find_one_filter (f : doc → bool) filt (coll : list doc) :
  Forall (λ d, matches_filter filt d = Some (f d)) coll →
  find_one coll filt = Some (List.find f coll).
Proof.
  intros H. unfold find_one. rewrite (find_filter f _ _ H). simpl.
  by rewrite head_filter_find.
Qed.

Lemma oid_eq o o' : oid_eqb o o' = true → o = o'.
Proof.
  destruct o, o'. unfold oid_eqb. simpl.
  intros [H1%Nat.eqb_eq H2%N.eqb_eq]%andb_prop. by subst.
Qed.

Lemma oid_eqb_refl o : oid_eqb o o = true.
Proof. unfold oid_eqb. by rewrite Nat.eqb_refl, N.eqb_refl. Qed.

Lemma has_oid_true o (d : doc) : has_oid o d = true → d !! "_id" = Some (VOid o).
Proof.
  unfold has_oid. destruct (d !! "_id") as [[]|]; try discriminate.
  by intros ->%oid_eq.
Qed.

Lemma matches_by_id o (d : doc) o' :
  d !! "_id" = Some (VOid o') →
  matches_filter {["_id" := CEqOid o]} d = Some (has_oid o d).
Proof.
  intros H. rewrite matches_filter_singleton. unfold has_oid. rewrite H. simpl.
  by rewrite orb_false_r, andb_true_r.
Qed.

Lemma find_one_by_id o (coll : list doc) :
  well_identified coll →
  find_one coll {["_id" := CEqOid o]} = Some (List.find (has_oid o) coll).
Proof.
  intros H. apply find_one_filter.
  eapply Forall_impl; [|exact H]. intros d [o' Ho']. by eapply matches_by_id.
Qed.

Lemma matches_by_email e (d : doc) :
  matches_filter {["email" := CEqStr e]} d = Some (email_matches e d).
Proof.
  rewrite matches_filter_singleton. simpl. by rewrite andb_true_r.
Qed.

Lemma email_matches_has_email e (d : doc) :
  has_email e d = true → email_matches e d = true.
Proof.
  unfold has_email, email_matches.
  destruct (d !! "email") as [[]|]; try discriminate. simpl. intros ->. done.
Qed.

Lemma email_matches_nonempty e (d : doc) :
  email_matches e d = true → map_is_empty d = false.
Proof.
  unfold email_matches. destruct (d !! "email") eqn:E; [|discriminate].
  intros _. by eapply map_is_empty_false.
Qed.

Lemma skip_limit_ok skip limit (l : list doc) :
  0 ≤ skip → 1 ≤ limit →
  skip_limit skip limit l = Some (take (Z.to_nat limit) (drop (Z.to_nat skip) l)).
Proof.
  intros H1 H2. unfold skip_limit.
  by rewrite (proj2 (Z.leb_le 0 skip) H1), (proj2 (Z.leb_le 1 limit) H2).
Qed.

Lemma insert_one_fresh db coll (d : doc) :
  d !! "_id" = None → bson_encodable (VDict d) = true →
  insert_one db coll d =
    Some (Done (mkObjectId (next_oid db),
          mkDatabase (<[coll := collection db coll
                                ++ [<["_id" := VOid (mkObjectId (next_oid db))]> d]]>
                        (collections db))
                     (next_oid db + 1))).
Proof. intros H He. unfold insert_one. by rewrite H, He. Qed.

(** A dictionary is accepted by the encoder when each of its values is. *)
Lemma bson_encodable_dict (d : doc) :
  bson_encodable (VDict d) = true ↔ ∀ k v, d !! k = Some v → bson_encodable v = true.
Proof.
  cbn [bson_encodable]. rewrite map_fold_foldr. split.
  - intros H k v Hk. apply elem_of_map_to_list in Hk.
    induction (map_to_list d) as [|[k' v'] l IH]; [by apply elem_of_nil in Hk|].
    simpl in H. apply andb_prop in H as [H1 H2].
    apply elem_of_cons in Hk as [[= -> ->]|Hk]; [done | by apply IH].
  - intros H.
    assert (∀ k v, (k, v) ∈ map_to_list d → bson_encodable v = true) as H'.
    { intros k v Hk. apply (H k). by apply elem_of_map_to_list. }
    clear H. induction (map_to_list d) as [|[k' v'] l IH]; [done|].
    simpl. rewrite (H' k' v') by (apply elem_of_cons; by left). simpl.
    apply IH. intros k v Hk. apply (H' k). apply elem_of_cons. by right.
Qed.

Lemma bson_encodable_insert k v (d : doc) :
  bson_encodable v = true → bson_encodable (VDict d) = true →
  bson_encodable (VDict (<[k := v]> d)) = true.
Proof.
  rewrite !bson_encodable_dict. intros Hv Hd k' v' H.
  apply lookup_insert_Some in H as [[_ <-]|[_ H]]; [done | by eapply Hd].
Qed.

Lemma bson_encodable_empty : bson_encodable (VDict ∅) = true.
Proof. reflexivity. Qed.

End StoreFacts.

(** ** Numbers *)

Section NumFacts.
Import Num.

Lemma le_fin_refl m e : le (DFin m e) (DFin m e) = true.
Proof. simpl. apply Z.leb_refl. Qed.

(** A bound is met by the value equal to it: both ends of a range are
    included. *)
Lemma le_refl d : is_nan d = false → le d d = true.
Proof. destruct d as [|[]|m e]; try done. intros _. apply le_fin_refl. Qed.

(** [le] on finite values is the order of the numbers [m * 2^e]: scaled to
    a common exponent below both, it compares integers. *)
Lemma le_fin_scaled m1 e1 m2 e2 e :
  e ≤ e1 → e ≤ e2 →
  le (DFin m1 e1) (DFin m2 e2) = (m1 * 2 ^ (e1 - e) <=? m2 * 2 ^ (e2 - e)).
Proof.
  intros H1 H2. simpl. apply Bool.eq_iff_eq_true. rewrite !Z.leb_le.
  set (k := Z.min e1 e2).
  assert (e ≤ k) as Hk by (unfold k; lia).
  assert (e1 - e = (e1 - k) + (k - e)) as -> by lia.
  assert (e2 - e = (e2 - k) + (k - e)) as -> by lia.
  rewrite !Z.pow_add_r by (unfold k; lia).
  rewrite !Z.mul_assoc.
  assert (0 < 2 ^ (k - e)) as Hp by (apply Z.pow_pos_nonneg; lia).
  split; intros H; nia.
Qed.

Lemma le_nan_l d : le DNaN d = false.
Proof. done. Qed.

Lemma le_nan_r d : le d DNaN = false.
Proof. by destruct d as [|[]|]. Qed.

End NumFacts.

(** ** Identifiers and their text *)

Section ObjectIdFacts.
Local Open Scope N_scope.

Lemma hex_value_digit n : n < 16 → hex_value (hex_digit n) = Some n.
Proof.
  intros H. assert (N.to_nat n < 16)%nat as Hk by lia.
  rewrite <- (N2Nat.id n). clear H. revert Hk. generalize (N.to_nat n) as k.
  intros k Hk. do 16 (destruct k as [|k]; [reflexivity|]). lia.
Qed.

Lemma is_space_digit n : is_space (hex_digit n) = false.
Proof.
  destruct (N.ltb_spec n 16) as [H|H].
  - assert (N.to_nat n < 16)%nat as Hk by lia.
    rewrite <- (N2Nat.id n). clear H. revert Hk. generalize (N.to_nat n) as k.
    intros k Hk. do 16 (destruct k as [|k]; [reflexivity|]). lia.
  - assert (hex_digit n = "f"%char) as ->; [|reflexivity].
    unfold hex_digit. destruct n as [|p]; [lia|].
    do 4 (destruct p as [p|p|]; try lia; try reflexivity).
Qed.

Lemma length_to_hex w : ∀ n acc,
  String.length (to_hex w n acc) = (w + String.length acc)%nat.
Proof.
  induction w as [|w IH]; intros n acc; simpl; [done|].
  rewrite IH. simpl. lia.
Qed.

Lemma to_hex_two w n acc :
  to_hex (S (S w)) n acc
    = to_hex w (n / 256)
        (String (hex_digit ((n / 16) mod 16)) (String (hex_digit (n mod 16)) acc)).
Proof.
  cbn [to_hex]. rewrite N.Div0.div_div. reflexivity.
Qed.

(** Reading back the digits of [k] bytes. *)
Lemma fromhex_to_hex k : ∀ n acc size a,
  fromhex (to_hex (2 * k) n acc) size a
    = fromhex acc (size + k) (a * 256 ^ N.of_nat k + n mod 256 ^ N.of_nat k).
Proof.
  induction k as [|k IH]; intros n acc size a.
  - simpl to_hex. rewrite N.mod_1_r, Nat.add_0_r. f_equal. simpl. lia.
  - replace (2 * S k)%nat with (S (S (2 * k))) by lia.
    rewrite to_hex_two, IH. cbn [fromhex].
    rewrite is_space_digit, !hex_value_digit by (apply N.mod_lt; lia).
    replace (size + S k)%nat with (S (size + k)) by lia. f_equal.
    rewrite Nat2N.inj_succ, N.pow_succ_r'.
    rewrite (N.Div0.mod_mul_r n 256 (256 ^ N.of_nat k)).
    assert (n mod 256 = 16 * ((n / 16) mod 16) + n mod 16) as Hb.
    { change 256 with (16 * 16). rewrite (N.Div0.mod_mul_r n 16 16). lia. }
    lia.
Qed.

(** The text of a twelve-byte identifier parses back to the identifier. *)
Lemma ObjectId_roundtrip o :
  oid_size o = 12%nat → oid_value o < 2 ^ 96 →
  ObjectId_parse (ObjectId_str o) = Some o.
Proof.
  destruct o as [size v]. simpl. intros -> H. unfold ObjectId_parse, ObjectId_str.
  rewrite length_to_hex. cbn [oid_size oid_value].
  change (2 * 12 + String.length "" =? 24)%nat with true. cbv iota.
  rewrite (fromhex_to_hex 12). cbn [fromhex fmap option_fmap option_map].
  change (256 ^ N.of_nat 12) with (2 ^ 96).
  rewrite N.mul_0_l, N.add_0_l, N.mod_small by done. reflexivity.
Qed.

Lemma ObjectId_str_length o : String.length (ObjectId_str o) = (2 * oid_size o)%nat.
Proof. unfold ObjectId_str. rewrite length_to_hex. simpl. lia. Qed.

(** [fromhex] reads at most one byte per two characters. *)
Lemma fromhex_size_aux (n : nat) : ∀ s size a size' v,
  (String.length s ≤ n)%nat →
  fromhex s size a = Some (size', v) →
  (size ≤ size' ∧ 2 * (size' - size) ≤ String.length s)%nat.
Proof.
  induction n as [|n IH]; intros s size a size' v Hn.
  - destruct s; [|simpl in Hn; lia]. simpl. intros [= <- <-]. lia.
  - destruct s as [|c s]; simpl.
    + intros [= <- <-]. lia.
    + simpl in Hn. destruct (is_space c).
      * intros H. apply IH in H; [lia | lia].
      * destruct (hex_value c) as [top|]; [|discriminate].
        destruct s as [|c' s]; [discriminate|].
        destruct (hex_value c') as [bot|]; [|discriminate].
        simpl in Hn. intros H. apply IH in H; [simpl; lia | lia].
Qed.

Lemma fromhex_size s size a size' v :
  fromhex s size a = Some (size', v) →
  (size ≤ size' ∧ 2 * (size' - size) ≤ String.length s)%nat.
Proof. by apply (fromhex_size_aux (String.length s)). Qed.

End ObjectIdFacts.

(** ** Serialization of returned documents *)

Section Returned.
Local Open Scope list_scope.

Lemma public_form_lookup_id o (d : doc) :
  public_form o d !! "id" = Some (VStr (ObjectId_str o)).
Proof. unfold public_form. by rewrite lookup_insert_eq. Qed.

Lemma public_form_lookup_internal o (d : doc) : public_form o d !! "_id" = None.
Proof.
  unfold public_form. rewrite lookup_insert_ne by done. by rewrite lookup_delete_eq.
Qed.

Lemma public_form_lookup_other o (d : doc) k :
  k ≠ "id" → k ≠ "_id" → public_form o d !! k = d !! k.
Proof.
  intros H1 H2. unfold public_form.
  rewrite lookup_insert_ne by done. by rewrite lookup_delete_ne.
Qed.

Lemma publish_oid (d : doc) o : d !! "_id" = Some (VOid o) → publish d = public_form o d.
Proof. intros H. unfold publish. by rewrite H. Qed.

Lemma serialize_all_published (l : list doc) :
  well_identified l → serialize_all l = Some (VList (VDict <$> (publish <$> l))).
Proof.
  intros H. unfold serialize_all.
  assert (mapM serialize_doc l = Some (publish <$> l)) as ->; [|done].
  induction H as [|d l [o Ho] _ IH]; [done|].
  simpl. rewrite (serialize_doc_oid _ _ Ho), (publish_oid _ _ Ho). simpl.
  by rewrite IH.
Qed.

Lemma find_sublist filt (coll : list doc) : ∀ l,
  find coll filt = Some l → l `sublist_of` coll.
Proof.
  induction coll as [|d coll IH]; simpl; intros l H.
  - injection H as <-. constructor.
  - destruct (matches_filter filt d) as [b|]; [|discriminate]. simpl in H.
    destruct (find coll filt) as [rest|]; [|discriminate]. simpl in H.
    injection H as <-. destruct b.
    + apply sublist_skip. by apply IH.
    + apply sublist_cons. by apply IH.
Qed.

Lemma skip_limit_sublist skip limit (l c : list doc) :
  skip_limit skip limit l = Some c → c `sublist_of` l.
Proof.
  unfold skip_limit. destruct (_ && _); [|discriminate]. intros [= <-].
  etrans; [apply sublist_take | apply sublist_drop].
Qed.

Lemma well_identified_sublist (l c : list doc) :
  c `sublist_of` l → well_identified l → well_identified c.
Proof.
  unfold well_identified. rewrite !Forall_forall. intros Hs H d Hd.
  apply H. apply list_elem_of_In. eapply elem_of_sublist; [|exact Hs].
  by apply list_elem_of_In.
Qed.

Lemma list_products_published db q category min_price max_price min_rating featured
    limit skip resp :
  well_identified (collection db "product") →
  list_products (Some db) q category min_price max_price min_rating featured limit skip
    = Some resp →
  ∃ cursor, cursor `sublist_of` collection db "product"
            ∧ resp = Json (VList (VDict <$> (publish <$> cursor))).
Proof.
  intros Hw. unfold list_products.
  destruct (find _ _) as [found|] eqn:Ef; [|discriminate]. simpl.
  destruct (skip_limit _ _ _) as [cursor|] eqn:Ec; [|discriminate]. simpl.
  assert (cursor `sublist_of` collection db "product") as Hs.
  { etrans; [by eapply skip_limit_sublist | by eapply find_sublist]. }
  rewrite serialize_all_published by (by eapply well_identified_sublist).
  simpl. intros [= <-]. eauto.
Qed.

Lemma find_has_oid o (coll : list doc) d :
  List.find (has_oid o) coll = Some d → d ∈ coll ∧ d !! "_id" = Some (VOid o).
Proof.
  intros H. apply find_some in H as [H1 H2]. split.
  - by apply list_elem_of_In.
  - by apply has_oid_true.
Qed.

(** What a lookup by identifier answers when the store is there and its
    documents carry store-assigned identifiers. *)
Lemma get_by_id_present coll db id :
  well_identified (collection db coll) →
  get_by_id coll (Some db) id =
    Some match ObjectId_parse id with
         | None => HTTPException 400 "Invalid id"
         | Some o =>
             match List.find (has_oid o) (collection db coll) with
             | None => HTTPException 404 "Not found"
             | Some d => Json (VDict (public_form o d))
             end
         end.
Proof.
  intros Hw. unfold get_by_id. destruct (ObjectId_parse id) as [o|]; [|done].
  rewrite (find_one_by_id _ _ Hw). simpl.
  destruct (List.find (has_oid o) (collection db coll)) as [d|] eqn:E; [|done].
  apply find_has_oid in E as [_ Hd]. simpl.
  rewrite (map_is_empty_false _ _ _ Hd). simpl.
  by rewrite (serialize_doc_oid _ _ Hd).
Qed.

Lemma insert_desc_perm k (d : doc) l : insert_desc k d l ≡ₚ (k, d) :: l.
Proof.
  induction l as [|[k' d'] l IH]; simpl; [done|].
  destruct (k' <? k)%N; [done|]. rewrite IH. apply Permutation_swap.
Qed.

Lemma mapM_keyed (l : list doc) keyed :
  mapM (λ d : doc, k ← oid_of d; Some (k, d)) l = Some keyed → keyed.*2 = l.
Proof.
  revert keyed. induction l as [|d l IH]; simpl; intros keyed H.
  - by injection H as <-.
  - destruct (oid_of d) as [k|]; [|discriminate]. simpl in H.
    destruct (mapM _ l) as [keyed'|]; [|discriminate]. simpl in H.
    injection H as <-. simpl. f_equal. by apply IH.
Qed.

Lemma sort_id_desc_perm (l sorted : list doc) :
  sort_id_desc l = Some sorted → sorted ≡ₚ l.
Proof.
  unfold sort_id_desc. destruct (mapM _ l) as [keyed|] eqn:E; [|discriminate].
  simpl. intros [= <-]. rewrite <- (mapM_keyed _ _ E). apply fmap_Permutation.
  clear E. induction keyed as [|[k d] keyed IH]; simpl; [done|].
  by rewrite insert_desc_perm, IH.
Qed.

Lemma well_identified_perm (l c : list doc) :
  c ≡ₚ l → well_identified l → well_identified c.
Proof. unfold well_identified. by intros ->. Qed.

Lemma list_blogs_published db limit skip resp :
  well_identified (collection db "blogpost") →
  list_blogs (Some db) limit skip = Some resp →
  ∃ sorted cursor, sorted ≡ₚ collection db "blogpost"
                   ∧ cursor `sublist_of` sorted
                   ∧ resp = Json (VList (VDict <$> (publish <$> cursor))).
Proof.
  intros Hw. unfold list_blogs. rewrite find_all. simpl.
  destruct (sort_id_desc _) as [sorted|] eqn:Es; [|discriminate]. simpl.
  destruct (skip_limit _ _ _) as [cursor|] eqn:Ec; [|discriminate]. simpl.
  pose proof (sort_id_desc_perm _ _ Es) as Hp.
  pose proof (skip_limit_sublist _ _ _ _ Ec) as Hs.
  rewrite serialize_all_published.
  - simpl. intros [= <-]. eauto.
  - eapply well_identified_sublist; [exact Hs|]. by eapply well_identified_perm.
Qed.

End Returned.

(** C1. Every document handed to a caller goes through [serialize_doc]:
    a document with a store-assigned identifier loses ["_id"] and carries
    the identifier's text under ["id"]; a document without identifier is
    returned without error, with ["id"] null (absent for the empty
    document) and its other fields untouched.  The list endpoints apply
    the rule to every element of the result and the lookups by identifier
    to the single document they return. *)
Theorem serialize_doc_identifier :
  (∀ (d : doc) o, d !! "_id" = Some (VOid o) →
     serialize_doc d = Some (public_form o d)
     ∧ public_form o d !! "_id" = None
     ∧ public_form o d !! "id" = Some (VStr (ObjectId_str o))
     ∧ ∀ k, k ≠ "id" → k ≠ "_id" → public_form o d !! k = d !! k)
  ∧ (∀ d : doc, d !! "_id" = None →
     ∃ d', serialize_doc d = Some d'
           ∧ d' !! "_id" = None
           ∧ (d' !! "id" = None ∨ d' !! "id" = Some VNone)
           ∧ ∀ k, k ≠ "id" → d' !! k = d !! k)
  ∧ (∀ l : list doc, well_identified l →
     serialize_all l = Some (VList (VDict <$> (publish <$> l))))
  ∧ (∀ db q category min_price max_price min_rating featured limit skip resp,
     well_identified (collection db "product") →
     list_products (Some db) q category min_price max_price min_rating featured
       limit skip = Some resp →
     ∃ cursor, cursor `sublist_of` collection db "product"
               ∧ resp = Json (VList (VDict <$> (publish <$> cursor))))
  ∧ (∀ db limit skip resp,
     well_identified (collection db "blogpost") →
     list_blogs (Some db) limit skip = Some resp →
     ∃ sorted cursor, sorted ≡ₚ collection db "blogpost"
                      ∧ cursor `sublist_of` sorted
                      ∧ resp = Json (VList (VDict <$> (publish <$> cursor))))
  ∧ (∀ coll db id d o,
     well_identified (collection db coll) →
     ObjectId_parse id = Some o →
     List.find (has_oid o) (collection db coll) = Some d →
     get_by_id coll (Some db) id = Some (Json (VDict (public_form o d)))).
Proof.
  split; [|split; [|split; [|split; [|split]]]].
  - intros d o H. split; [by apply serialize_doc_oid|].
    split; [apply public_form_lookup_internal|].
    split; [apply public_form_lookup_id|]. intros k. apply public_form_lookup_other.
  - intros d H. rewrite (serialize_doc_no_id _ H).
    destruct (map_is_empty d) eqn:E.
    + exists d. split; [done|]. split; [done|]. split; [|done].
      left. apply map_is_empty_true in E. subst. apply lookup_empty.
    + exists (<["id" := VNone]> d). split; [done|].
      split; [by rewrite lookup_insert_ne|].
      split; [right; by rewrite lookup_insert_eq|].
      intros k Hk. by rewrite lookup_insert_ne.
  - apply serialize_all_published.
  - intros. by eapply list_products_published.
  - intros. by eapply list_blogs_published.
  - intros coll db id d o Hw Hp Hf.
    rewrite (get_by_id_present _ _ _ Hw), Hp, Hf. done.
Qed.

Lemma serialize_doc_identifier_witness :
  serialize_doc stored_example = Some (public_form example_oid stored_example).
Proof.
  exact (proj1 (proj1 serialize_doc_identifier stored_example example_oid eq_refl)).
Defined.

(** C9, as stated, fails: serializing a stored document twice is not
    serializing it once (the second pass replaces the identifier's text
    by null), and serializing a document without ["_id"] overwrites an
    ["id"] field it already has. *)
Lemma serialize_doc_not_idempotent :
  serialize_doc stored_example
    = Some (<["id" := VStr "000000000000000000000001"]> {["title" := VStr "Card Sleeve"]})
  ∧ (serialize_doc stored_example ≫= serialize_doc)
    = Some (<["id" := VNone]> {["title" := VStr "Card Sleeve"]})
  ∧ (serialize_doc stored_example ≫= serialize_doc) ≠ serialize_doc stored_example
  ∧ unsaved_example !! "_id" = None
  ∧ unsaved_example !! "id" = Some (VStr "abc")
  ∧ (serialize_doc unsaved_example ≫= λ d, d !! "id") = Some VNone.
Proof.
  assert (serialize_doc stored_example
    = Some (<["id" := VStr "000000000000000000000001"]> {["title" := VStr "Card Sleeve"]}))
    as H1 by (vm_compute; reflexivity).
  assert ((serialize_doc stored_example ≫= serialize_doc)
    = Some (<["id" := VNone]> {["title" := VStr "Card Sleeve"]}))
    as H2 by (vm_compute; reflexivity).
  split; [exact H1|]. split; [exact H2|]. split.
  - rewrite H2, H1. intros E.
    apply (f_equal (λ r : option doc, r ≫= λ d : doc, d !! "id")) in E.
    simpl in E. rewrite !lookup_insert_eq in E. discriminate.
  - repeat split; vm_compute; reflexivity.
Qed.

(** C9, amended.  A document without ["_id"] comes back with ["id"] set to
    null (whatever it held under ["id"]) and its other fields as they
    were, the empty document unchanged.  A second pass changes the result
    of the first only for a document that had a true ["_id"]: there it
    replaces the identifier's text by null. *)
Theorem serialize_doc_twice (d d1 : doc) :
  serialize_doc d = Some d1 →
  serialize_doc d1
    = Some match d !! "_id" with
           | Some v => if truthy v then <["id" := VNone]> d1 else d1
           | None => d1
           end
  ∧ (d !! "_id" = None → d1 = if map_is_empty d then d else <["id" := VNone]> d).
Proof.
  unfold serialize_doc at 1. destruct (map_is_empty d) eqn:E.
  - intros [= <-]. apply map_is_empty_true in E. subst d.
    rewrite lookup_empty. split; [reflexivity | done].
  - destruct (d !! "_id") as [v|] eqn:Hid.
    + destruct (truthy v) eqn:Hv.
      * destruct (py_str v) as [s|]; [|discriminate]. simpl. intros [= <-].
        split; [|discriminate].
        rewrite serialize_doc_no_id, map_is_empty_insert; [done|].
        rewrite lookup_insert_ne by done. apply lookup_delete_eq.
      * intros [= <-]. split; [|discriminate].
        rewrite (serialize_doc_falsy_id _ v); [|by rewrite lookup_insert_ne|done].
        by rewrite insert_insert_eq.
    + intros [= <-]. split; [|done].
      rewrite serialize_doc_no_id, map_is_empty_insert by (by rewrite lookup_insert_ne).
      by rewrite insert_insert_eq.
Qed.

Lemma serialize_doc_twice_witness :
  serialize_doc (public_form example_oid stored_example)
    = Some (<["id" := VNone]> (public_form example_oid stored_example)).
Proof.
  exact (proj1 (serialize_doc_twice stored_example
                  (public_form example_oid stored_example) eq_refl)).
Defined.

(** ** The seeded store *)

Lemma seeded_database_seeded : seeded_database = Some seeded.
Proof. vm_compute. reflexivity. Qed.

Lemma well_identified_b_spec (coll : list doc) :
  well_identified_b coll = true → well_identified coll.
Proof.
  unfold well_identified_b, well_identified. rewrite forallb_forall, Forall_forall.
  intros H d Hd. specialize (H d Hd).
  destruct (d !! "_id") as [[]|]; try discriminate. eauto.
Qed.

(** ** Without a store *)

(** C2, as stated, fails: without a store, contact submission and
    registration answer with a success body, not with status 500. *)
Lemma writes_without_store_succeed :
  submit_contact None (mkContactIn "A" "a@x.com" "hello")
    = Some (Json (VDict {["status" := VStr "received"]}), None)
  ∧ register None (mkRegisterIn "A" "a@x.com" "p")
    = Some (Json (VDict {["status" := VStr "ok"]}), None)
  ∧ status (Json (VDict {["status" := VStr "received"]})) = 200
  ∧ status (Json (VDict {["status" := VStr "ok"]})) = 200
  ∧ (200 ≠ 500)%Z.
Proof. repeat split; done. Qed.

(** C2, amended.  Without a store, order creation answers 500; contact
    submission and registration answer 200 with a fixed body and store
    nothing; the list endpoints answer the empty list and the lookups by
    identifier answer 404. *)
Theorem store_absent_responses :
  ∀ (order : Order) (contact : ContactIn) (user : RegisterIn)
    (q category : option string) (min_price max_price min_rating : option spec_float)
    (featured : option bool) (limit skip : Z) (id : string),
    create_order None order = Some (HTTPException 500 "Database not available", None)
    ∧ submit_contact None contact
      = Some (Json (VDict {["status" := VStr "received"]}), None)
    ∧ register None user = Some (Json (VDict {["status" := VStr "ok"]}), None)
    ∧ list_products None q category min_price max_price min_rating featured limit skip
      = Some (Json (VList []))
    ∧ list_blogs None limit skip = Some (Json (VList []))
    ∧ get_product None id = Some (HTTPException 404 "Not found")
    ∧ get_blog None id = Some (HTTPException 404 "Not found").
Proof. intros. repeat split. Qed.

(** C10. Without a store, login answers every email and password with
    the fixed token and status 200; no credential is looked at, and the
    answer is never the 401 of the invalid-credentials branch. *)
Theorem login_without_store :
  ∀ payload : LoginIn,
    login None payload
      = Some (Json (VDict (<["status" := VStr "ok"]> (<["token" := VStr "demo-token"]> ∅))))
    ∧ (status <$> login None payload) = Some 200
    ∧ (status <$> login None payload) ≠ Some 401.
Proof. intros payload. repeat split. discriminate. Qed.

(** ** Lookup by identifier *)

(** C6, as stated, fails: without a store a malformed identifier is
    answered 404, not 400. *)
Lemma malformed_id_without_store :
  ObjectId_parse "not-an-id" = None
  ∧ get_product None "not-an-id" = Some (HTTPException 404 "Not found")
  ∧ get_blog None "not-an-id" = Some (HTTPException 404 "Not found").
Proof. repeat split. Qed.

(** C6, amended.  With a store: an identifier that does not parse is
    answered 400; one that parses is answered 404 when no document of the
    collection has it, and with the serialized document when one has.
    Without a store every lookup is answered 404. *)
Theorem lookup_by_identifier :
  (∀ db id, ObjectId_parse id = None →
     get_product (Some db) id = Some (HTTPException 400 "Invalid id")
     ∧ get_blog (Some db) id = Some (HTTPException 400 "Invalid id"))
  ∧ (∀ db id o, ObjectId_parse id = Some o →
     (well_identified (collection db "product") →
      get_product (Some db) id =
        Some match List.find (has_oid o) (collection db "product") with
             | None => HTTPException 404 "Not found"
             | Some d => Json (VDict (public_form o d))
             end)
     ∧ (well_identified (collection db "blogpost") →
        get_blog (Some db) id =
          Some match List.find (has_oid o) (collection db "blogpost") with
               | None => HTTPException 404 "Not found"
               | Some d => Json (VDict (public_form o d))
               end))
  ∧ (∀ id, get_product None id = Some (HTTPException 404 "Not found")
           ∧ get_blog None id = Some (HTTPException 404 "Not found")).
Proof.
  split; [|split].
  - intros db id H. unfold get_product, get_blog, get_by_id. by rewrite H.
  - intros db id o H. split; intros Hw; unfold get_product, get_blog;
      by rewrite (get_by_id_present _ _ _ Hw), H.
  - done.
Qed.

Lemma lookup_by_identifier_witness :
  get_product (Some seeded) "not-an-id" = Some (HTTPException 400 "Invalid id")
  ∧ get_product (Some seeded) "0000000000000000000000ff"
    = Some (HTTPException 404 "Not found")
  ∧ (get_product (Some seeded) "000000000000000000000002"
       ≫= λ r, match r with Json (VDict d) => d !! "title" | _ => None end)
    = Some (VStr "Card Sleeve")
  ∧ ObjectId_parse "00 00 00 00 00 00 00 00 " = Some (mkOid 8 0)
  ∧ get_product (Some seeded) "00 00 00 00 00 00 00 00 "
    = Some (HTTPException 404 "Not found").
Proof.
  assert (well_identified (collection seeded "product")) as Hw
    by (apply well_identified_b_spec; vm_compute; reflexivity).
  split; [|split; [|split; [|split]]].
  - exact (proj1 (proj1 lookup_by_identifier seeded "not-an-id" eq_refl)).
  - rewrite (proj1 (proj1 (proj2 lookup_by_identifier) seeded
               "0000000000000000000000ff" (mkObjectId 255) eq_refl) Hw).
    vm_compute. reflexivity.
  - rewrite (proj1 (proj1 (proj2 lookup_by_identifier) seeded
               "000000000000000000000002" (mkObjectId 2) eq_refl) Hw).
    vm_compute. reflexivity.
  - reflexivity.
  - rewrite (proj1 (proj1 (proj2 lookup_by_identifier) seeded
               "00 00 00 00 00 00 00 00 " (mkOid 8 0) eq_refl) Hw).
    vm_compute. reflexivity.
Defined.

(** ** Bounds on [limit] and [skip] *)

(** C5, as stated, fails: a limit above 100 is refused with the
    framework's status 422, not 400. *)
Lemma limit_above_bound_is_422 :
  GET_products (Some seeded)
    (mkProductsQuery None None None None None None (Some 101) None)
    = Some RequestValidationError
  ∧ GET_blogs (Some seeded) (Some 101) None = Some RequestValidationError
  ∧ status RequestValidationError = 422
  ∧ (422 ≠ 400)%Z.
Proof. repeat split; done. Qed.

(** C5, amended.  A request to a list endpoint whose limit is above 100 or
    below 1, or whose skip is negative, is refused before the handler
    runs, with status 422; the value is not clamped and nothing is
    listed. *)
Theorem list_bounds_rejected :
  ∀ (db : option Database) (r : ProductsQuery) (limit skip : option Z),
    (100 < default 50 (pq_limit r) ∨ default 50 (pq_limit r) < 1
       ∨ default 0 (pq_skip r) < 0 →
     GET_products db r = Some RequestValidationError)
    ∧ (100 < default 20 limit ∨ default 20 limit < 1 ∨ default 0 skip < 0 →
       GET_blogs db limit skip = Some RequestValidationError)
    ∧ status RequestValidationError = 422.
Proof.
  intros db r limit skip. split; [|split; [|done]].
  - intros H. unfold GET_products, products_query_ok, limit_ok, skip_ok.
    assert (((1 <=? default 50 (pq_limit r)) && (default 50 (pq_limit r) <=? 100))
            && (0 <=? default 0 (pq_skip r)) = false) as E.
    { destruct H as [H|[H|H]].
      - apply andb_false_intro1, andb_false_intro2, Z.leb_gt. lia.
      - apply andb_false_intro1, andb_false_intro1, Z.leb_gt. lia.
      - apply andb_false_intro2, Z.leb_gt. lia. }
    rewrite <- !andb_assoc in *. rewrite E. by rewrite !andb_false_r.
  - intros H. unfold GET_blogs, limit_ok, skip_ok.
    assert (((1 <=? default 20 limit) && (default 20 limit <=? 100))
            && (0 <=? default 0 skip) = false) as ->; [|done].
    destruct H as [H|[H|H]].
    + apply andb_false_intro1, andb_false_intro2, Z.leb_gt. lia.
    + apply andb_false_intro1, andb_false_intro1, Z.leb_gt. lia.
    + apply andb_false_intro2, Z.leb_gt. lia.
Qed.

Lemma list_bounds_rejected_witness :
  GET_products None (mkProductsQuery None None None None None None (Some 0) None)
    = Some RequestValidationError
  ∧ GET_blogs None None (Some (-1)) = Some RequestValidationError.
Proof.
  split.
  - apply (proj1 (list_bounds_rejected None
             (mkProductsQuery None None None None None None (Some 0) None) None None)).
    right. left. simpl. lia.
  - apply (proj1 (proj2 (list_bounds_rejected None
             (mkProductsQuery None None None None None None None None)
             None (Some (-1))))).
    right. right. simpl. lia.
Defined.

(** ** What the writes keep true *)

Section Invariants.
Local Open Scope list_scope.

Lemma collection_insert db name (l : list doc) n other :
  collection (mkDatabase (<[name := l]> (collections db)) n) other
    = if decide (name = other) then l else collection db other.
Proof.
  unfold collection. simpl. rewrite lookup_insert. by destruct (decide (name = other)).
Qed.

Lemma empty_database_well_identified : db_well_identified empty_database.
Proof. intros name. unfold collection. simpl. rewrite lookup_empty. constructor. Qed.

Lemma insert_one_well_identified db name (d : doc) o db' :
  insert_one db name d = Some (Done (o, db')) →
  db_well_identified db → db_well_identified db'.
Proof.
  unfold insert_one. destruct (d !! "_id"); [discriminate|].
  destruct (bson_encodable (VDict d)); [|discriminate]. intros [= <- <-] H other.
  rewrite collection_insert. destruct (decide (name = other)) as [->|]; [|apply H].
  apply Forall_app. split; [apply H|]. constructor; [|constructor].
  eexists. apply lookup_insert_eq.
Qed.

Lemma insert_many_well_identified name (ds : list doc) : ∀ db db',
  insert_many db name ds = Some db' →
  db_well_identified db → db_well_identified db'.
Proof.
  induction ds as [|d ds IH]; simpl; intros db db' H Hw.
  - by injection H as <-.
  - destruct (insert_one db name d) as [[[o db1]|]|] eqn:E; try discriminate.
    simpl in H. eapply IH; [exact H|]. by eapply insert_one_well_identified.
Qed.

Lemma seed_database_well_identified db db' :
  seed_database (Some db) = Some (Some db') →
  db_well_identified db → db_well_identified db'.
Proof.
  unfold seed_database. intros H Hw.
  destruct (count_documents _ _) as [n|]; [|discriminate].
  cbn [mbind option_bind] in H.
  destruct (if (n =? 0)%nat then _ else _) as [db1|] eqn:E1; [|discriminate].
  cbn [mbind option_bind] in H.
  assert (db_well_identified db1) as Hw1.
  { destruct (n =? 0)%nat.
    - eapply insert_many_well_identified; [exact E1 | exact Hw].
    - by injection E1 as <-. }
  destruct (count_documents _ _) as [m|]; [|discriminate].
  cbn [mbind option_bind] in H.
  destruct (if (m =? 0)%nat then _ else _) as [db2|] eqn:E2; [|discriminate].
  cbn [mbind option_bind] in H. injection H as <-.
  destruct (m =? 0)%nat.
  - eapply insert_many_well_identified; [exact E2 | exact Hw1].
  - by injection E2 as <-.
Qed.

Lemma seeded_well_identified : db_well_identified seeded.
Proof.
  eapply seed_database_well_identified; [|apply empty_database_well_identified].
  vm_compute. reflexivity.
Qed.

(** Seeding a seeded store changes nothing. *)
Lemma seed_database_again : seed_database (Some seeded) = Some (Some seeded).
Proof. vm_compute. reflexivity. Qed.

Lemma create_document_well_identified db name (d : doc) id db' :
  create_document db name d = Some (Done (id, db')) →
  db_well_identified db → db_well_identified db'.
Proof.
  unfold create_document.
  destruct (insert_one db name d) as [[[o db1]|]|] eqn:E; try discriminate.
  simpl. intros [= _ <-]. by eapply insert_one_well_identified.
Qed.

Lemma register_well_identified db user resp db' :
  register (Some db) user = Some (resp, Some db') →
  db_well_identified db → db_well_identified db'.
Proof.
  unfold register. destruct (find_one _ _) as [existing|]; [|discriminate]. simpl.
  destruct (negb (not_doc existing)).
  - by intros [= _ <-].
  - destruct (create_document _ _ _) as [[[id db1]|]|] eqn:E; [| |discriminate].
    + simpl. intros [= _ <-]. by eapply create_document_well_identified.
    + simpl. by intros [= _ <-].
Qed.

Lemma submit_contact_well_identified db payload resp db' :
  submit_contact (Some db) payload = Some (resp, Some db') →
  db_well_identified db → db_well_identified db'.
Proof.
  unfold submit_contact.
  destruct (create_document _ _ _) as [[[id db1]|]|] eqn:E; [| |discriminate].
  - simpl. intros [= _ <-]. by eapply create_document_well_identified.
  - simpl. by intros [= _ <-].
Qed.

Lemma create_order_well_identified db order resp db' :
  create_order (Some db) order = Some (resp, Some db') →
  db_well_identified db → db_well_identified db'.
Proof.
  unfold create_order.
  destruct (insert_one _ _ _) as [[[o db1]|]|] eqn:E; [| |discriminate].
  - simpl. intros [= _ <-]. by eapply insert_one_well_identified.
  - simpl. by intros [= _ <-].
Qed.

(** Registration is the only writer of the user collection, and it writes
    the email as a string. *)
Lemma register_users_have_emails db user resp db' :
  register (Some db) user = Some (resp, Some db') →
  users_have_emails db → users_have_emails db'.
Proof.
  unfold register. destruct (find_one _ _) as [existing|]; [|discriminate]. simpl.
  destruct (negb (not_doc existing)).
  - by intros [= _ <-].
  - unfold create_document, insert_one.
    destruct (dump_RegisterIn user !! "_id") eqn:E; [discriminate|].
    destruct (bson_encodable _); simpl; [|by intros [= _ <-]].
    intros [= _ <-] H. unfold users_have_emails. rewrite collection_insert.
    rewrite decide_True by done. apply Forall_app. split; [exact H|].
    constructor; [|constructor]. exists (email user).
    rewrite lookup_insert_ne by done. unfold dump_RegisterIn. by simplify_map_eq.
Qed.

(** A request that passes the boundary carries no bound that is not a
    number. *)
Lemma float_ge_modelled bound v :
  float_ge bound v = true → bound_modelled (Some v) = true.
Proof.
  unfold float_ge, bound_modelled. destruct (Num.of_float v); try done.
  by rewrite le_nan_r.
Qed.

Lemma products_query_ok_modelled r :
  products_query_ok r = true →
  bound_modelled (pq_min_price r) = true ∧ bound_modelled (pq_max_price r) = true.
Proof.
  unfold products_query_ok. rewrite !andb_true_iff. intros [[[[H1 H2] _] _] _].
  split.
  - destruct (pq_min_price r); [by eapply float_ge_modelled | done].
  - destruct (pq_max_price r); [by eapply float_ge_modelled | done].
Qed.

(** Within the bounds the handler is called with the values given. *)
Lemma GET_blogs_within db limit skip :
  1 ≤ default 20 limit ≤ 100 → 0 ≤ default 0 skip →
  GET_blogs db limit skip = list_blogs db (default 20 limit) (default 0 skip).
Proof.
  intros [H1 H2] H3. unfold GET_blogs, limit_ok, skip_ok.
  by rewrite (proj2 (Z.leb_le _ _) H1), (proj2 (Z.leb_le _ _) H2),
    (proj2 (Z.leb_le _ _) H3).
Qed.

End Invariants.

(** ** Product filters *)

Section Filters.
Local Open Scope list_scope.

Lemma str_given_nonempty q : q ≠ "" → str_given (Some q) = true.
Proof.
  intros H. unfold str_given. apply negb_true_iff. by apply String.eqb_neq.
Qed.

Lemma products_filter_title q category min_price max_price min_rating featured :
  q ≠ "" →
  products_filter (Some q) category min_price max_price min_rating featured !! "title"
    = Some (CRegex q "i").
Proof.
  intros H. unfold products_filter. rewrite (str_given_nonempty _ H).
  destruct (str_given category), (range_given min_price max_price),
    min_rating, featured; by simplify_map_eq.
Qed.

Lemma products_filter_price q category min_price max_price min_rating featured :
  products_filter q category min_price max_price min_rating featured !! "price"
    = if range_given min_price max_price then Some (CRange min_price max_price) else None.
Proof.
  unfold products_filter.
  destruct (str_given q), (str_given category), (range_given min_price max_price),
    min_rating, featured; by simplify_map_eq.
Qed.

Lemma holds_regex_plain q t :
  plain q = true → ascii_text t = true →
  holds (CRegex q "i") (Some (VStr t)) = Some (ci_contains q t).
Proof.
  intros Hq Ht. unfold holds. rewrite (RegexFacts.compile_plain _ Hq).
  cbn [mbind option_bind candidates mapM run_regex].
  rewrite (RegexFacts.run_literal _ _ Ht). simpl. by rewrite orb_false_r.
Qed.

Lemma holds_range_float lo hi p :
  bound_modelled lo = true → bound_modelled hi = true →
  holds (CRange lo hi) (Some (VFloat p))
    = Some (opt_check (λ a, Num.le (Num.of_float a) (Num.of_float p)) lo
            && opt_check (λ b, Num.le (Num.of_float p) (Num.of_float b)) hi).
Proof.
  intros H1 H2. unfold holds. rewrite H1, H2. simpl.
  destruct lo, hi; simpl; unfold at_least, at_most; simpl;
    by rewrite ?orb_false_r.
Qed.

Lemma matches_price_range lo hi (d : doc) p :
  d !! "price" = Some (VFloat p) →
  bound_modelled lo = true → bound_modelled hi = true →
  matches_filter (products_filter None None lo hi None None) d
    = Some (price_within lo hi d).
Proof.
  intros Hp H1 H2. unfold price_within. rewrite Hp.
  unfold products_filter. simpl. destruct (range_given lo hi) eqn:E.
  - rewrite insert_empty, matches_filter_singleton, Hp, holds_range_float by done.
    simpl. by rewrite andb_true_r.
  - rewrite matches_filter_empty. by destruct lo, hi.
Qed.

Lemma list_products_by_title db q limit skip :
  q ≠ "" → plain q = true → 0 ≤ skip → 1 ≤ limit →
  well_identified (collection db "product") →
  Forall (λ d : doc, ∃ t, d !! "title" = Some (VStr t) ∧ ascii_text t = true)
    (collection db "product") →
  list_products (Some db) (Some q) None None None None None limit skip
    = Some (Json (VList (VDict <$> (publish <$>
        take (Z.to_nat limit) (drop (Z.to_nat skip)
          (List.filter (title_contains q) (collection db "product"))))))).
Proof.
  intros Hne Hq Hs Hl Hw Ht. unfold list_products, products_filter.
  rewrite (str_given_nonempty _ Hne). simpl. rewrite insert_empty.
  rewrite (find_filter (title_contains q)).
  - simpl. rewrite skip_limit_ok by done. simpl.
    rewrite serialize_all_published; [done|].
    unfold well_identified in *. apply Forall_take, Forall_drop.
    rewrite Forall_forall in *. intros d Hd. apply Hw.
    apply filter_In in Hd. tauto.
  - eapply Forall_impl; [|exact Ht]. intros d (t & Hd & Ha). simpl in *.
    rewrite matches_filter_singleton, Hd, (holds_regex_plain _ _ Hq Ha).
    unfold title_contains. rewrite Hd. simpl. by rewrite andb_true_r.
Qed.

Lemma ascii_titles_b_spec (coll : list doc) :
  ascii_titles_b coll = true →
  Forall (λ d : doc, ∃ t, d !! "title" = Some (VStr t) ∧ ascii_text t = true) coll.
Proof.
  unfold ascii_titles_b. rewrite forallb_forall, Forall_forall.
  intros H d Hd. specialize (H d Hd).
  destruct (d !! "title") as [[]|]; try discriminate. eauto.
Qed.

End Filters.

(** C3, as stated, fails: the query text is a pattern, not a literal.  The
    query ["."] selects every seeded product, and none of their titles
    contains a dot. *)
Lemma dot_query_selects_all :
  holds (CRegex "." "i") (Some (VStr "Card Sleeve")) = Some true
  ∧ ci_contains "." "Card Sleeve" = false
  ∧ listed (list_products (Some seeded) (Some ".") None None None None None 50 0) = Some 3%nat
  ∧ List.filter (title_contains ".") (collection seeded "product") = [].
Proof. repeat split; vm_compute; reflexivity. Qed.

(** C3, amended.  For every non-empty query text without a character that
    has a meaning in a pattern, the filter holds the query as the title's
    pattern with option [i], that condition holds of a title exactly when
    the title contains the text as a literal substring, case-insensitively,
    and a listing by such a query alone returns exactly the products
    whose title does (after skip and limit).  Stated for ASCII text. *)
Theorem title_search_plain :
  ∀ q : string, q ≠ "" → plain q = true →
    (∀ category min_price max_price min_rating featured,
       products_filter (Some q) category min_price max_price min_rating featured
         !! "title" = Some (CRegex q "i"))
    ∧ (∀ t, ascii_text t = true →
         holds (CRegex q "i") (Some (VStr t)) = Some (ci_contains q t))
    ∧ (∀ db limit skip,
         0 ≤ skip → 1 ≤ limit →
         well_identified (collection db "product") →
         Forall (λ d : doc, ∃ t, d !! "title" = Some (VStr t) ∧ ascii_text t = true)
           (collection db "product") →
         list_products (Some db) (Some q) None None None None None limit skip
           = Some (Json (VList (VDict <$> (publish <$>
               take (Z.to_nat limit) (drop (Z.to_nat skip)
                 (List.filter (title_contains q) (collection db "product")))))))).
Proof.
  intros q Hne Hq. split; [|split].
  - intros. by apply products_filter_title.
  - intros t Ht. by apply holds_regex_plain.
  - intros. by apply list_products_by_title.
Qed.

Lemma title_search_plain_witness :
  holds (CRegex "metal" "i") (Some (VStr "Metal Card X")) = Some true
  ∧ holds (CRegex "metal" "i") (Some (VStr "Card Sleeve")) = Some false
  ∧ listed (list_products (Some seeded) (Some "metal") None None None None None 50 0)
    = Some 1%nat.
Proof.
  assert ("metal" ≠ "") as Hne by discriminate.
  assert (well_identified (collection seeded "product")) as Hw
    by (apply well_identified_b_spec; vm_compute; reflexivity).
  assert (Forall (λ d : doc, ∃ t, d !! "title" = Some (VStr t) ∧ ascii_text t = true)
            (collection seeded "product")) as Ht
    by (apply ascii_titles_b_spec; vm_compute; reflexivity).
  split; [|split].
  - exact (proj1 (proj2 (title_search_plain "metal" Hne eq_refl)) "Metal Card X" eq_refl).
  - exact (proj1 (proj2 (title_search_plain "metal" Hne eq_refl)) "Card Sleeve" eq_refl).
  - rewrite (proj2 (proj2 (title_search_plain "metal" Hne eq_refl)) seeded 50 0
               ltac:(lia) ltac:(lia) Hw Ht).
    vm_compute. reflexivity.
Defined.

(** ** The price range *)

(** C7. The bounds given to the product listing become one condition on
    ["price"] that holds the given bounds and no others (no condition at
    all when neither is given); the condition holds of a price exactly
    when the price is at least the lower bound and at most the upper one,
    each bound included; and against the seeded products the bounds 100
    and 250 select the product "Glass Card Pro", of price 199, and nothing
    else. *)
Theorem price_range_filter :
  (∀ q category min_price max_price min_rating featured,
     products_filter q category min_price max_price min_rating featured !! "price"
       = if range_given min_price max_price
         then Some (CRange min_price max_price) else None)
  ∧ (∀ lo hi (d : doc) p,
       d !! "price" = Some (VFloat p) →
       bound_modelled lo = true → bound_modelled hi = true →
       matches_filter (products_filter None None lo hi None None) d
         = Some (price_within lo hi d))
  ∧ price_within (Some Num.f199) (Some Num.f199) glass_card_pro = true
  ∧ collection seeded "product" !! 0%nat = Some glass_card_pro
  ∧ glass_card_pro !! "title" = Some (VStr "Glass Card Pro")
  ∧ glass_card_pro !! "price" = Some (VFloat Num.f199)
  ∧ List.filter (price_within (Some f100) (Some f250)) (collection seeded "product")
    = [glass_card_pro]
  ∧ GET_products (Some seeded)
      (mkProductsQuery None None (Some f100) (Some f250) None None None None)
    = Some (Json (VList [VDict (publish glass_card_pro)])).
Proof.
  split; [|split].
  - intros. apply products_filter_price.
  - intros lo hi d p H1 H2 H3. by apply (matches_price_range lo hi d p).
  - repeat split; vm_compute; reflexivity.
Qed.

Lemma price_range_filter_witness :
  matches_filter (products_filter None None (Some f100) None None None) glass_card_pro
    = Some true
  ∧ matches_filter (products_filter None None None (Some f100) None None) glass_card_pro
    = Some false.
Proof.
  split.
  - exact (proj1 (proj2 price_range_filter) (Some f100) None glass_card_pro Num.f199
             eq_refl eq_refl eq_refl).
  - exact (proj1 (proj2 price_range_filter) None (Some f100) glass_card_pro Num.f199
             eq_refl eq_refl eq_refl).
Defined.

(** ** Registration *)

Section Registration.
Local Open Scope list_scope.

Lemma dump_RegisterIn_no_id user : dump_RegisterIn user !! "_id" = None.
Proof. unfold dump_RegisterIn. by simplify_map_eq. Qed.

Lemma dump_RegisterIn_email user :
  dump_RegisterIn user !! "email" = Some (VStr (email user)).
Proof. unfold dump_RegisterIn. by simplify_map_eq. Qed.

Lemma find_one_by_email e (coll : list doc) :
  find_one coll {["email" := CEqStr e]} = Some (List.find (email_matches e) coll).
Proof.
  apply find_one_filter, Forall_forall. intros d _. apply matches_by_email.
Qed.

Lemma register_taken db user :
  (∃ d, d ∈ collection db "user" ∧ d !! "email" = Some (VStr (email user))) →
  register (Some db) user
    = Some (HTTPException 400 "Email already registered", Some db).
Proof.
  intros (d & Hd & He). unfold register. rewrite find_one_by_email. simpl.
  destruct (List.find _ _) as [d'|] eqn:E.
  - apply find_some in E as [_ E]. simpl.
    by rewrite (email_matches_nonempty _ _ E).
  - apply list_elem_of_In in Hd. pose proof (find_none _ _ E d Hd) as Hn.
    rewrite email_matches_has_email in Hn; [discriminate|].
    unfold has_email. rewrite He. apply String.eqb_refl.
Qed.

Lemma register_free db user :
  (∀ d, d ∈ collection db "user" →
        ∃ e, d !! "email" = Some (VStr e) ∧ e ≠ email user) →
  register (Some db) user
    = Some (Json (VDict (<["status" := VStr "ok"]>
                        (<["user_id" := VStr (ObjectId_str (mkObjectId (next_oid db)))]> ∅))),
            Some (mkDatabase
                    (<["user" := collection db "user"
                                 ++ [<["_id" := VOid (mkObjectId (next_oid db))]>
                                       (dump_RegisterIn user)]]> (collections db))
                    (next_oid db + 1))).
Proof.
  intros H. unfold register. rewrite find_one_by_email. simpl.
  assert (List.find (email_matches (email user)) (collection db "user") = None) as ->.
  { destruct (List.find _ _) as [d|] eqn:E; [|done].
    apply find_some in E as [Hd E]. apply list_elem_of_In in Hd.
    destruct (H d Hd) as (e & He & Hne).
    unfold email_matches in E. rewrite He in E. simpl in E.
    rewrite orb_false_r in E. apply String.eqb_eq in E. congruence. }
  simpl. unfold create_document.
  by rewrite (insert_one_fresh _ _ _ (dump_RegisterIn_no_id user)).
Qed.

End Registration.

(** C8. With a store, registering an email that a stored user holds as
    the very same string is refused with status 400 and stores nothing;
    registering an email that differs from the email of every stored user
    succeeds, stores the user and returns the new identifier.  Strings
    that differ only in case are different. *)
Theorem register_duplicate_email :
  ∀ db user,
    ((∃ d, d ∈ collection db "user" ∧ d !! "email" = Some (VStr (email user))) →
     register (Some db) user
       = Some (HTTPException 400 "Email already registered", Some db))
    ∧ ((∀ d, d ∈ collection db "user" →
             ∃ e, d !! "email" = Some (VStr e) ∧ e ≠ email user) →
       register (Some db) user
         = Some (Json (VDict (<["status" := VStr "ok"]>
                (<["user_id" := VStr (ObjectId_str (mkObjectId (next_oid db)))]> ∅))),
                 Some (mkDatabase
                         (<["user" := (collection db "user"
                              ++ [<["_id" := VOid (mkObjectId (next_oid db))]>
                                    (dump_RegisterIn user)])%list]> (collections db))
                         (next_oid db + 1)))).
Proof.
  intros db user. split; [apply register_taken | apply register_free].
Qed.

Lemma register_duplicate_email_witness :
  register (Some seeded) user_a
    = Some (Json (VDict (<["status" := VStr "ok"]>
                        (<["user_id" := VStr "000000000000000000000005"]> ∅))),
            Some after_first_registration)
  ∧ register (Some after_first_registration) user_a
    = Some (HTTPException 400 "Email already registered", Some after_first_registration)
  ∧ ((status ∘ fst) <$> register (Some after_first_registration) user_a_upper) = Some 200.
Proof.
  split; [|split].
  - rewrite (proj2 (register_duplicate_email seeded user_a)).
    + vm_compute. reflexivity.
    + intros d Hd. change (collection seeded "user") with (@nil doc) in Hd.
      by apply elem_of_nil in Hd.
  - apply (proj1 (register_duplicate_email after_first_registration user_a)).
    exists stored_user_a. split; [|reflexivity].
    change (collection after_first_registration "user") with [stored_user_a].
    by apply list_elem_of_singleton.
  - rewrite (proj2 (register_duplicate_email after_first_registration user_a_upper)).
    + reflexivity.
    + intros d Hd.
      change (collection after_first_registration "user") with [stored_user_a] in Hd.
      apply list_elem_of_singleton in Hd. subst d.
      exists "a@x.com". split; [reflexivity | discriminate].
Defined.

(** ** Order creation *)

Section Orders.

Variable validate_str : value → option string.
Variable validate_float : value → option spec_float.
Variable validate_int : value → option Z.
Variable validate_email : value → option string.

(** The schema declares ["payment"] without a default: a body without it
    does not validate. *)
Lemma validate_Order_requires_payment (d : doc) :
  d !! "payment" = None →
  validate_Order validate_str validate_float validate_int validate_email (VDict d) = None.
Proof.
  intros H. unfold validate_Order. cbn [as_dict mbind option_bind].
  destruct (required _ d "items"); [|done]. cbn [mbind option_bind].
  destruct (required _ d "subtotal"); [|done]. cbn [mbind option_bind].
  destruct (required _ d "shipping_cost"); [|done]. cbn [mbind option_bind].
  destruct (required _ d "total"); [|done]. cbn [mbind option_bind].
  destruct (required _ d "shipping"); [|done]. cbn [mbind option_bind].
  unfold required at 1. by rewrite H.
Qed.

(** An empty payment object takes both defaults. *)
Lemma validate_PaymentInfo_defaults :
  validate_PaymentInfo validate_str (VDict ∅) = Some (mkPaymentInfo "cod" "pending").
Proof. reflexivity. Qed.

(** The dictionary of a validated order always has its ["payment"]: the
    default that [create_order] passes to [get] is never taken. *)
Lemma create_order_default_unused (order : Order) :
  dict_get (dump_Order order) "payment" (VDict default_payment)
    = VDict (dump_PaymentInfo (payment order)).
Proof. unfold dict_get, dump_Order. by simplify_map_eq. Qed.

End Orders.

(** C4: the code at a body without ["payment"].  The body is refused at
    the boundary with status 422 and nothing is stored, whatever the
    scalar validators accept; the handler, which holds the default payment,
    is not reached. *)
Theorem order_without_payment_rejected :
  ∀ (validate_str : value → option string)
    (validate_float : value → option spec_float)
    (validate_int : value → option Z)
    (validate_email : value → option string) (db : option Database),
    POST_orders validate_str validate_float validate_int validate_email db
      order_without_payment
      = Some (RequestValidationError, db)
    ∧ status RequestValidationError = 422.
Proof.
  intros. split; [|done]. unfold POST_orders, order_without_payment.
  by rewrite validate_Order_requires_payment.
Qed.

(** ** Filters with several conditions *)

Section Conjunction.
Local Open Scope list_scope.

Lemma mapM_forallb_perm {A} (f : A → option bool) (l l' : list A) :
  l ≡ₚ l' →
  (mapM f l ≫= λ bs, Some (forallb id bs)) = (mapM f l' ≫= λ bs, Some (forallb id bs)).
Proof.
  induction 1 as [|x l l' _ IH|x y l|l l' l'' _ IH1 _ IH2]; simpl.
  - done.
  - destruct (f x) as [b|]; [|done]. simpl.
    destruct (mapM f l) as [bs|], (mapM f l') as [bs'|]; simpl in *;
      try discriminate; [|done]. injection IH as IH. by rewrite IH.
  - destruct (f x) as [b|], (f y) as [b'|], (mapM f l) as [bs|]; simpl; try done.
    f_equal. destruct b, b'; reflexivity.
  - by rewrite IH1.
Qed.

(** Adding a condition on a new field adds a conjunct. *)
Lemma matches_filter_insert k c (filt : filter) (d : doc) :
  filt !! k = None →
  matches_filter (<[k := c]> filt) d
    = (b ← holds c (d !! k); r ← matches_filter filt d; Some (b && r)).
Proof.
  intros H. unfold matches_filter at 1.
  rewrite (mapM_forallb_perm _ _ ((k, c) :: map_to_list filt)).
  - simpl. unfold matches_filter. destruct (holds c (d !! k)); [|done]. simpl.
    by destruct (mapM _ (map_to_list filt)).
  - by apply map_to_list_insert.
Qed.

Lemma holds_eq_str c c' :
  holds (CEqStr c) (Some (VStr c')) = Some (String.eqb c c').
Proof. simpl. by rewrite orb_false_r. Qed.

Lemma holds_eq_bool b b' :
  holds (CEqBool b) (Some (VBool b')) = Some (Bool.eqb b b').
Proof. simpl. by rewrite orb_false_r. Qed.

Lemma holds_min_rating r x :
  bound_modelled (Some r) = true →
  holds (CRange (Some r) None) (Some (VFloat x))
    = Some (Num.le (Num.of_float r) (Num.of_float x)).
Proof.
  intros H. rewrite holds_range_float by done. simpl. by rewrite andb_true_r.
Qed.

(** The filter of a product listing holds of a product exactly when the
    product meets every predicate that was given. *)
Lemma matches_products_filter q category lo hi min_rating featured (d : doc) :
  product_shaped d →
  plain_or_absent q = true →
  bound_modelled lo = true → bound_modelled hi = true →
  bound_modelled min_rating = true →
  matches_filter (products_filter q category lo hi min_rating featured) d
    = Some (product_selected q category lo hi min_rating featured d).
Proof.
  intros (t & c & p & r & f & Ht & Ha & Hc & Hp & Hr & Hf) Hq Hlo Hhi Hmr.
  unfold products_filter, product_selected,
    title_contains, has_category, price_within, rating_at_least, is_featured.
  rewrite Ht, Hc, Hp, Hr, Hf.
  assert (str_given q = true →
          holds (CRegex (default "" q) "i") (Some (VStr t))
            = Some (ci_contains (default "" q) t)) as Hre.
  { destruct q as [s|]; [|discriminate]. intros _. simpl in *.
    by apply holds_regex_plain. }
  destruct (str_given q) eqn:Eq; [specialize (Hre eq_refl)|clear Hre];
    destruct (str_given category) eqn:Ec;
    destruct (range_given lo hi) eqn:Er;
    destruct min_rating as [mr|];
    destruct featured as [fb|];
    repeat (rewrite matches_filter_insert by (by simplify_map_eq));
    rewrite matches_filter_empty;
    rewrite ?Ht, ?Hc, ?Hp, ?Hr, ?Hf, ?Hre, ?holds_eq_str, ?holds_eq_bool,
      ?(holds_min_rating _ _ Hmr), ?(holds_range_float _ _ _ Hlo Hhi);
    cbn [mbind option_bind]; f_equal;
    rewrite ?andb_true_r, ?andb_true_l, ?andb_assoc;
    repeat match goal with
           | |- context [ci_contains ?a ?b] => generalize (ci_contains a b); intro
           | |- context [String.eqb ?a ?b] => generalize (String.eqb a b); intro
           | |- context [Bool.eqb ?a ?b] => generalize (Bool.eqb a b); intro
           | |- context [Num.le ?a ?b] => generalize (Num.le a b); intro
           | |- context [opt_check ?a ?b] => generalize (opt_check a b); intro
           end;
    repeat match goal with b : bool |- _ => destruct b end; reflexivity.
Qed.

End Conjunction.

(** ** Product listings *)

Section Listings.
Local Open Scope list_scope.

Lemma product_shaped_b_spec (coll : list doc) :
  forallb product_shaped_b coll = true → Forall product_shaped coll.
Proof.
  rewrite forallb_forall, Forall_forall. intros H d Hd. specialize (H d Hd).
  unfold product_shaped_b in H. unfold product_shaped.
  destruct (d !! "title") as [[]|]; try discriminate.
  destruct (d !! "category") as [[]|]; try discriminate.
  destruct (d !! "price") as [[]|]; try discriminate.
  destruct (d !! "rating") as [[]|]; try discriminate.
  destruct (d !! "featured") as [[]|]; try discriminate.
  repeat eexists. done.
Qed.

Lemma list_products_selected db q category lo hi min_rating featured limit skip :
  0 ≤ skip → 1 ≤ limit →
  well_identified (collection db "product") →
  Forall product_shaped (collection db "product") →
  plain_or_absent q = true →
  bound_modelled lo = true → bound_modelled hi = true →
  bound_modelled min_rating = true →
  list_products (Some db) q category lo hi min_rating featured limit skip
    = Some (Json (VList (VDict <$> (publish <$>
        take (Z.to_nat limit) (drop (Z.to_nat skip)
          (List.filter (product_selected q category lo hi min_rating featured)
             (collection db "product"))))))).
Proof.
  intros Hs Hl Hw Hsh Hq Hlo Hhi Hmr. unfold list_products.
  rewrite (find_filter (product_selected q category lo hi min_rating featured)).
  - cbn [mbind option_bind]. rewrite skip_limit_ok by done.
    cbn [mbind option_bind]. rewrite serialize_all_published; [done|].
    unfold well_identified in *. apply Forall_take, Forall_drop.
    rewrite Forall_forall in *. intros d Hd. apply Hw.
    apply filter_In in Hd. tauto.
  - eapply Forall_impl; [|exact Hsh]. intros d Hd.
    by apply matches_products_filter.
Qed.

Lemma list_products_everything db limit skip :
  0 ≤ skip → 1 ≤ limit →
  well_identified (collection db "product") →
  list_products (Some db) None None None None None None limit skip
    = Some (Json (VList (VDict <$> (publish <$>
        take (Z.to_nat limit) (drop (Z.to_nat skip) (collection db "product")))))).
Proof.
  intros Hs Hl Hw. unfold list_products.
  change (products_filter None None None None None None) with (∅ : filter).
  rewrite find_all. cbn [mbind option_bind]. rewrite skip_limit_ok by done.
  cbn [mbind option_bind]. rewrite serialize_all_published; [done|].
  by apply Forall_take, Forall_drop.
Qed.

Lemma products_filter_empty_text category lo hi min_rating featured :
  products_filter (Some "") category lo hi min_rating featured
    = products_filter None category lo hi min_rating featured.
Proof. reflexivity. Qed.

Lemma products_filter_empty_category q lo hi min_rating featured :
  products_filter q (Some "") lo hi min_rating featured
    = products_filter q None lo hi min_rating featured.
Proof. reflexivity. Qed.

Lemma serialize_all_length (l : list doc) items :
  serialize_all l = Some (VList items) → length items = length l.
Proof.
  unfold serialize_all. destruct (mapM serialize_doc l) as [l'|] eqn:E; [|discriminate].
  simpl. intros [= <-]. rewrite length_fmap. by apply length_mapM in E.
Qed.

Lemma skip_limit_length skip limit (l c : list doc) :
  skip_limit skip limit l = Some c → (length c ≤ Z.to_nat limit)%nat.
Proof.
  unfold skip_limit. destruct (_ && _); [|discriminate]. intros [= <-].
  rewrite length_take. lia.
Qed.

Lemma list_products_length db q category lo hi min_rating featured limit skip items :
  list_products db q category lo hi min_rating featured limit skip
    = Some (Json (VList items)) →
  (length items ≤ Z.to_nat limit)%nat.
Proof.
  unfold list_products. destruct db as [db|].
  - destruct (find _ _) as [found|]; [|discriminate]. cbn [mbind option_bind].
    destruct (skip_limit _ _ _) as [cursor|] eqn:Ec; [|discriminate].
    cbn [mbind option_bind].
    destruct (serialize_all cursor) as [v|] eqn:Es; [|discriminate].
    cbn [mbind option_bind]. intros [= ->].
    rewrite (serialize_all_length _ _ Es). by eapply skip_limit_length.
  - intros [= <-]. simpl. lia.
Qed.

Lemma list_blogs_length db limit skip items :
  list_blogs db limit skip = Some (Json (VList items)) →
  (length items ≤ Z.to_nat limit)%nat.
Proof.
  unfold list_blogs. destruct db as [db|].
  - destruct (find _ _) as [found|]; [|discriminate]. cbn [mbind option_bind].
    destruct (sort_id_desc _) as [sorted|]; [|discriminate]. cbn [mbind option_bind].
    destruct (skip_limit _ _ _) as [cursor|] eqn:Ec; [|discriminate].
    cbn [mbind option_bind].
    destruct (serialize_all cursor) as [v|] eqn:Es; [|discriminate].
    cbn [mbind option_bind]. intros [= ->].
    rewrite (serialize_all_length _ _ Es). by eapply skip_limit_length.
  - intros [= <-]. simpl. lia.
Qed.

End Listings.

(** X1. With a store, a product listing returns exactly the stored
    products that meet every predicate given (title text, category, price
    range, minimum rating, featured flag), in stored order, after skipping
    [skip] and cut to [limit], each in its public form.  For products
    shaped as the schema has them, a query text without pattern
    characters, and bounds that are numbers. *)
Theorem list_products_conjunction :
  ∀ db q category lo hi min_rating featured limit skip,
    0 ≤ skip → 1 ≤ limit →
    well_identified (collection db "product") →
    Forall product_shaped (collection db "product") →
    plain_or_absent q = true →
    bound_modelled lo = true → bound_modelled hi = true →
    bound_modelled min_rating = true →
    list_products (Some db) q category lo hi min_rating featured limit skip
      = Some (Json (VList (VDict <$> (publish <$>
          take (Z.to_nat limit) (drop (Z.to_nat skip)
            (List.filter (product_selected q category lo hi min_rating featured)
               (collection db "product"))))))).
Proof. intros. by apply list_products_selected. Qed.

Lemma list_products_conjunction_witness :
  listed (list_products (Some seeded) (Some "card") (Some "Cards") (Some f100) None
            (Some f4_85) (Some true) 50 0) = Some 1%nat.
Proof.
  assert (well_identified (collection seeded "product")) as Hw
    by (apply well_identified_b_spec; vm_compute; reflexivity).
  assert (Forall product_shaped (collection seeded "product")) as Hs
    by (apply product_shaped_b_spec; vm_compute; reflexivity).
  rewrite (list_products_conjunction seeded (Some "card") (Some "Cards") (Some f100)
             None (Some f4_85) (Some true) 50 0 ltac:(lia) ltac:(lia) Hw Hs
             eq_refl eq_refl eq_refl eq_refl).
  vm_compute. reflexivity.
Defined.

(** X2. A listing without any parameter returns every stored product,
    in stored order, after [skip] and up to [limit]; a skip at or past the
    end of the collection gives the empty list, not an error. *)
Theorem list_products_no_filter :
  ∀ db limit skip,
    0 ≤ skip → 1 ≤ limit →
    well_identified (collection db "product") →
    list_products (Some db) None None None None None None limit skip
      = Some (Json (VList (VDict <$> (publish <$>
          take (Z.to_nat limit) (drop (Z.to_nat skip) (collection db "product"))))))
    ∧ ((length (collection db "product") ≤ Z.to_nat skip)%nat →
       list_products (Some db) None None None None None None limit skip
         = Some (Json (VList []))).
Proof.
  intros db limit skip Hs Hl Hw.
  rewrite (list_products_everything _ _ _ Hs Hl Hw). split; [done|].
  intros H. by rewrite drop_ge, take_nil.
Qed.

Lemma list_products_no_filter_witness :
  listed (list_products (Some seeded) None None None None None None 2 0) = Some 2%nat
  ∧ list_products (Some seeded) None None None None None None 50 3
    = Some (Json (VList [])).
Proof.
  assert (well_identified (collection seeded "product")) as Hw
    by (apply well_identified_b_spec; vm_compute; reflexivity).
  split.
  - rewrite (proj1 (list_products_no_filter seeded 2 0 ltac:(lia) ltac:(lia) Hw)).
    vm_compute. reflexivity.
  - apply (proj2 (list_products_no_filter seeded 50 3 ltac:(lia) ltac:(lia) Hw)).
    vm_compute. lia.
Defined.

(** X3. An empty query text and an empty category are treated as absent:
    the listing is the one without them, whatever else is given and
    whatever the store.  A featured flag of false and a lower price bound
    of zero are not: each stays a condition of the filter. *)
Theorem empty_text_is_absent :
  ∀ db q category lo hi min_rating featured limit skip,
    list_products db (Some "") category lo hi min_rating featured limit skip
      = list_products db None category lo hi min_rating featured limit skip
    ∧ list_products db q (Some "") lo hi min_rating featured limit skip
      = list_products db q None lo hi min_rating featured limit skip
    ∧ products_filter q category lo hi min_rating (Some false) !! "featured"
      = Some (CEqBool false)
    ∧ products_filter q category (Some Num.f0) hi min_rating featured !! "price"
      = Some (CRange (Some Num.f0) hi).
Proof.
  intros. split; [|split; [|split]].
  - unfold list_products. by rewrite products_filter_empty_text.
  - unfold list_products. by rewrite products_filter_empty_category.
  - unfold products_filter.
    destruct (str_given q), (str_given category), (range_given lo hi), min_rating;
      by simplify_map_eq.
  - by rewrite products_filter_price.
Qed.

(** X4. A list response never holds more items than the limit the handler
    was given, and a list response that passed the boundary never holds
    more than 100. *)
Theorem list_size_bounded :
  (∀ db q category lo hi min_rating featured limit skip items,
     list_products db q category lo hi min_rating featured limit skip
       = Some (Json (VList items)) →
     (length items ≤ Z.to_nat limit)%nat)
  ∧ (∀ db limit skip items,
       list_blogs db limit skip = Some (Json (VList items)) →
       (length items ≤ Z.to_nat limit)%nat)
  ∧ (∀ db r items,
       GET_products db r = Some (Json (VList items)) → (length items ≤ 100)%nat)
  ∧ (∀ db limit skip items,
       GET_blogs db limit skip = Some (Json (VList items)) → (length items ≤ 100)%nat).
Proof.
  split; [|split; [|split]].
  - intros. by eapply list_products_length.
  - intros. by eapply list_blogs_length.
  - intros db r items. unfold GET_products.
    destruct (products_query_ok r) eqn:E; [|discriminate].
    intros H%list_products_length.
    unfold products_query_ok, limit_ok in E. rewrite !andb_true_iff in E.
    destruct E as [[_ [_ E]] _]. apply Z.leb_le in E. lia.
  - intros db limit skip items. unfold GET_blogs.
    destruct (limit_ok _ && skip_ok _) eqn:E; [|discriminate].
    intros H%list_blogs_length.
    unfold limit_ok in E. rewrite !andb_true_iff in E.
    destruct E as [[_ E] _]. apply Z.leb_le in E. lia.
Qed.

Lemma list_size_bounded_witness :
  (length [VDict (publish glass_card_pro)] ≤ 100)%nat.
Proof.
  apply (proj1 (proj2 (proj2 list_size_bounded)) (Some seeded)
           (mkProductsQuery None None (Some f100) (Some f250) None None None None)).
  vm_compute. reflexivity.
Defined.

(** ** Price bounds and the float parameters *)

Section Bounds.
Local Open Scope list_scope.
Import Num.

Lemma le_trans a b c : le a b = true → le b c = true → le a c = true.
Proof.
  destruct a as [|[]|m1 e1], b as [|[]|m2 e2], c as [|[]|m3 e3];
    try done.
  set (e := Z.min e1 (Z.min e2 e3)).
  rewrite (le_fin_scaled m1 e1 m2 e2 e), (le_fin_scaled m2 e2 m3 e3 e),
    (le_fin_scaled m1 e1 m3 e3 e) by (unfold e; lia).
  rewrite !Z.leb_le. lia.
Qed.

(** Bounds given in the wrong order select no price. *)
Lemma price_within_crossed lo hi (d : doc) :
  le (of_float lo) (of_float hi) = false → price_within (Some lo) (Some hi) d = false.
Proof.
  intros H. unfold price_within. destruct (d !! "price") as [[]|]; try done.
  simpl. destruct (le (of_float lo) (of_float f)) eqn:E1; [|done].
  destruct (le (of_float f) (of_float hi)) eqn:E2; [|done].
  by rewrite (le_trans _ _ _ E1 E2) in H.
Qed.

Lemma filter_none {A} (f : A → bool) (l : list A) :
  (∀ x, f x = false) → List.filter f l = [].
Proof. intros H. induction l as [|x l IH]; simpl; [done|]. by rewrite H. Qed.

Lemma float_ge_zero v : float_ge f0 v = negb (negative_or_nan v).
Proof.
  unfold float_ge. destruct v as [[]|[]| |[] m e]; try reflexivity.
  - simpl. apply Z.leb_gt.
    assert (0 < 2 ^ (e - Z.min 0 e)) by (apply Z.pow_pos_nonneg; lia).
    destruct (2 ^ (0 - Z.min 0 e)); lia.
  - simpl. apply Z.leb_le.
    assert (0 < 2 ^ (e - Z.min 0 e)) by (apply Z.pow_pos_nonneg; lia).
    destruct (2 ^ (0 - Z.min 0 e)); lia.
Qed.

Lemma products_query_refused db r :
  products_query_ok r = false → GET_products db r = Some RequestValidationError.
Proof. intros H. unfold GET_products. by rewrite H. Qed.

End Bounds.

(** X5. A lower price bound above the upper one is not an error: over
    products shaped as the schema has them the listing is empty. *)
Theorem crossed_price_bounds_select_nothing :
  ∀ db q category lo hi min_rating featured limit skip,
    0 ≤ skip → 1 ≤ limit →
    well_identified (collection db "product") →
    Forall product_shaped (collection db "product") →
    plain_or_absent q = true →
    bound_modelled (Some lo) = true → bound_modelled (Some hi) = true →
    bound_modelled min_rating = true →
    Num.le (Num.of_float lo) (Num.of_float hi) = false →
    list_products (Some db) q category (Some lo) (Some hi) min_rating featured limit skip
      = Some (Json (VList [])).
Proof.
  intros db q category lo hi min_rating featured limit skip
    Hs Hl Hw Hsh Hq Hlo Hhi Hmr Hx.
  rewrite list_products_selected by done.
  rewrite filter_none; [by rewrite drop_nil, take_nil|].
  intros d. unfold product_selected.
  rewrite (price_within_crossed _ _ _ Hx). simpl.
  by rewrite andb_false_r.
Qed.

Lemma crossed_price_bounds_select_nothing_witness :
  list_products (Some seeded) None None (Some f250) (Some f100) None None 50 0
    = Some (Json (VList [])).
Proof.
  assert (well_identified (collection seeded "product")) as Hw
    by (apply well_identified_b_spec; vm_compute; reflexivity).
  assert (Forall product_shaped (collection seeded "product")) as Hs
    by (apply product_shaped_b_spec; vm_compute; reflexivity).
  exact (crossed_price_bounds_select_nothing seeded None None f250 f100 None None 50 0
           ltac:(lia) ltac:(lia) Hw Hs eq_refl eq_refl eq_refl eq_refl eq_refl).
Defined.

(** X6. A price bound that is negative or not a number, and a minimum
    rating that is negative, not a number or above 5, are refused at the
    boundary with status 422, with or without a store; [-0.0] passes as a
    bound. *)
Theorem float_parameters_refused :
  ∀ db r v,
    (pq_min_price r = Some v ∧ negative_or_nan v = true
     ∨ pq_max_price r = Some v ∧ negative_or_nan v = true
     ∨ pq_min_rating r = Some v
       ∧ (negative_or_nan v = true ∨ float_le Num.f5 v = false) →
     GET_products db r = Some RequestValidationError)
    ∧ float_ge Num.f0 (S754_zero true) = true.
Proof.
  intros db r v. split; [|done]. intros H. apply products_query_refused.
  unfold products_query_ok.
  destruct H as [[E H]|[[E H]|[E H]]]; rewrite E; simpl; rewrite float_ge_zero.
  - by rewrite H.
  - rewrite H. simpl. by rewrite andb_false_r.
  - assert (negb (negative_or_nan v) && float_le Num.f5 v = false) as ->.
    { destruct H as [->| ->]; [done | apply andb_false_r]. }
    by rewrite andb_false_r.
Qed.

Lemma float_parameters_refused_witness :
  GET_products None
    (mkProductsQuery None None (Some S754_nan) None None None None None)
    = Some RequestValidationError
  ∧ GET_products (Some seeded)
      (mkProductsQuery None None None None (Some f100) None None None)
    = Some RequestValidationError.
Proof.
  split.
  - apply (proj1 (float_parameters_refused None
             (mkProductsQuery None None (Some S754_nan) None None None None None)
             S754_nan)).
    left. split; reflexivity.
  - apply (proj1 (float_parameters_refused (Some seeded)
             (mkProductsQuery None None None None (Some f100) None None None) f100)).
    right. right. split; [reflexivity|]. right. reflexivity.
Defined.

(** ** Identifiers in insertion order *)

Section Ordered.
Local Open Scope list_scope.
Local Open Scope N_scope.

Lemma oid_of_Some (d : doc) k :
  oid_of d = Some k → d !! "_id" = Some (VOid (mkObjectId k)).
Proof.
  unfold oid_of. destruct (d !! "_id") as [[| | | | |[size k']| |]|]; try discriminate.
  simpl. destruct (Nat.eqb_spec size 12) as [->|]; [|discriminate].
  by intros [= <-].
Qed.

Lemma oid_of_stored db (d : doc) : oid_of (stored_as db d) = Some (next_oid db).
Proof. unfold oid_of, stored_as. by rewrite lookup_insert_eq. Qed.

Lemma ordered_below_well_identified n (coll : list doc) :
  ordered_below n coll → well_identified coll.
Proof.
  intros (ks & Hks & _). apply mapM_Some in Hks. unfold well_identified.
  induction Hks as [|d k coll ks Hd _ IH]; constructor; [|done].
  eexists. by apply oid_of_Some.
Qed.

Lemma db_ordered_well_identified db : db_ordered db → db_well_identified db.
Proof. intros H name. eapply ordered_below_well_identified, H. Qed.

Lemma StronglySorted_snoc (ks : list N) n :
  StronglySorted N.lt ks → Forall (λ k, k < n) ks → StronglySorted N.lt (ks ++ [n]).
Proof.
  induction 1 as [|k ks Hs IH Hk]; intros Hn; simpl.
  - repeat constructor.
  - inversion Hn as [|? ? Hkn Hn']; subst. constructor; [by apply IH|].
    apply Forall_app. split; [done|]. by constructor.
Qed.

Lemma ordered_below_snoc db (coll : list doc) (d : doc) :
  ordered_below (next_oid db) coll →
  ordered_below (next_oid db + 1) (coll ++ [stored_as db d]).
Proof.
  intros (ks & Hks & Hs & Hb). exists (ks ++ [next_oid db]). split; [|split].
  - apply mapM_Some. apply Forall2_app; [by apply mapM_Some|].
    constructor; [apply oid_of_stored | constructor].
  - by apply StronglySorted_snoc.
  - apply Forall_app. split.
    + eapply Forall_impl; [|exact Hb]. simpl. intros. lia.
    + constructor; [lia | constructor].
Qed.

Lemma ordered_below_weaken n m (coll : list doc) :
  n ≤ m → ordered_below n coll → ordered_below m coll.
Proof.
  intros H (ks & Hks & Hs & Hb). exists ks. split; [done|]. split; [done|].
  eapply Forall_impl; [|exact Hb]. simpl. intros. lia.
Qed.

Lemma with_inserted_ordered db name (d : doc) :
  db_ordered db → db_ordered (with_inserted db name d).
Proof.
  intros H other. unfold with_inserted. rewrite collection_insert. simpl.
  destruct (decide (name = other)) as [->|].
  - apply ordered_below_snoc, H.
  - eapply ordered_below_weaken; [|apply H]. lia.
Qed.

Lemma insert_one_with_inserted db name (d : doc) :
  d !! "_id" = None → bson_encodable (VDict d) = true →
  insert_one db name d
    = Some (Done (mkObjectId (next_oid db), with_inserted db name d)).
Proof. apply insert_one_fresh. Qed.

Lemma insert_one_raises db name (d : doc) :
  d !! "_id" = None → bson_encodable (VDict d) = false →
  insert_one db name d = Some Raised.
Proof. intros H He. unfold insert_one. by rewrite H, He. Qed.

Lemma insert_one_inv db name (d : doc) o db' :
  insert_one db name d = Some (Done (o, db')) →
  o = mkObjectId (next_oid db) ∧ db' = with_inserted db name d.
Proof.
  unfold insert_one. destruct (d !! "_id"); [discriminate|].
  destruct (bson_encodable (VDict d)); [|discriminate]. by intros [= <- <-].
Qed.

Lemma insert_one_ordered db name (d : doc) o db' :
  insert_one db name d = Some (Done (o, db')) → db_ordered db → db_ordered db'.
Proof. intros [_ ->]%insert_one_inv. apply with_inserted_ordered. Qed.

Lemma insert_many_ordered name (ds : list doc) : ∀ db db',
  insert_many db name ds = Some db' → db_ordered db → db_ordered db'.
Proof.
  induction ds as [|d ds IH]; simpl; intros db db' H Ho.
  - by injection H as <-.
  - destruct (insert_one db name d) as [[[o db1]|]|] eqn:E; try discriminate.
    cbn [mbind option_bind] in H. eapply IH; [exact H|].
    by eapply insert_one_ordered.
Qed.

Lemma empty_database_ordered : db_ordered empty_database.
Proof.
  intros name. unfold collection. simpl. rewrite lookup_empty. simpl.
  exists []. repeat constructor.
Qed.

Lemma seed_database_ordered db db' :
  seed_database (Some db) = Some (Some db') → db_ordered db → db_ordered db'.
Proof.
  unfold seed_database. intros H Hw.
  destruct (count_documents _ _) as [n|]; [|discriminate].
  cbn [mbind option_bind] in H.
  destruct (if (n =? 0)%nat then _ else _) as [db1|] eqn:E1; [|discriminate].
  cbn [mbind option_bind] in H.
  assert (db_ordered db1) as Hw1.
  { destruct (n =? 0)%nat.
    - eapply insert_many_ordered; [exact E1 | exact Hw].
    - by injection E1 as <-. }
  destruct (count_documents _ _) as [m|]; [|discriminate].
  cbn [mbind option_bind] in H.
  destruct (if (m =? 0)%nat then _ else _) as [db2|] eqn:E2; [|discriminate].
  cbn [mbind option_bind] in H. injection H as <-.
  destruct (m =? 0)%nat.
  - eapply insert_many_ordered; [exact E2 | exact Hw1].
  - by injection E2 as <-.
Qed.

Lemma seeded_ordered : db_ordered seeded.
Proof.
  eapply seed_database_ordered; [|apply empty_database_ordered].
  vm_compute. reflexivity.
Qed.

Lemma create_document_inv db name (d : doc) id db' :
  create_document db name d = Some (Done (id, db')) →
  id = ObjectId_str (mkObjectId (next_oid db)) ∧ db' = with_inserted db name d.
Proof.
  unfold create_document.
  destruct (insert_one db name d) as [[[o db1]|]|] eqn:E; try discriminate.
  apply insert_one_inv in E as [-> ->]. by intros [= <- <-].
Qed.

Lemma register_ordered db user resp db' :
  register (Some db) user = Some (resp, Some db') → db_ordered db → db_ordered db'.
Proof.
  unfold register. destruct (find_one _ _) as [existing|]; [|discriminate].
  cbn [mbind option_bind]. destruct (negb (not_doc existing)).
  - by intros [= _ <-].
  - destruct (create_document _ _ _) as [[[id db1]|]|] eqn:E; [| |discriminate].
    + apply create_document_inv in E as [_ ->]. cbn [mbind option_bind].
      intros [= _ <-]. apply with_inserted_ordered.
    + cbn [mbind option_bind]. by intros [= _ <-].
Qed.

Lemma submit_contact_ordered db payload resp db' :
  submit_contact (Some db) payload = Some (resp, Some db') →
  db_ordered db → db_ordered db'.
Proof.
  unfold submit_contact.
  destruct (create_document _ _ _) as [[[id db1]|]|] eqn:E; [| |discriminate].
  - apply create_document_inv in E as [_ ->]. cbn [mbind option_bind].
    intros [= _ <-]. apply with_inserted_ordered.
  - cbn [mbind option_bind]. by intros [= _ <-].
Qed.

Lemma create_order_ordered db order resp db' :
  create_order (Some db) order = Some (resp, Some db') →
  db_ordered db → db_ordered db'.
Proof.
  unfold create_order.
  destruct (insert_one _ _ _) as [[[o db1]|]|] eqn:E; [| |discriminate].
  - apply insert_one_inv in E as [_ ->]. cbn [mbind option_bind].
    intros [= _ <-]. apply with_inserted_ordered.
  - cbn [mbind option_bind]. by intros [= _ <-].
Qed.

(** *** Lookup of a stored document by its identifier *)

Lemma has_oid_key o (d : doc) k :
  oid_of d = Some k → has_oid o d = oid_eqb o (mkObjectId k).
Proof. intros H%oid_of_Some. unfold has_oid. by rewrite H. Qed.

Lemma keyed_member (coll : list doc) ks (d : doc) o :
  mapM oid_of coll = Some ks → d ∈ coll → d !! "_id" = Some (VOid o) →
  o = mkObjectId (oid_value o) ∧ oid_value o ∈ ks.
Proof.
  intros Hks Hd Ho. apply mapM_Some in Hks.
  induction Hks as [|d1 k1 coll ks Hk1 _ IH].
  - by apply elem_of_nil in Hd.
  - apply elem_of_cons in Hd as [->|Hd].
    + apply oid_of_Some in Hk1. rewrite Ho in Hk1. injection Hk1 as ->.
      split; [done|]. apply elem_of_cons. by left.
    + destruct (IH Hd) as [H1 H2]. split; [done|]. apply elem_of_cons. by right.
Qed.

Lemma find_unique o (coll : list doc) : ∀ ks d,
  mapM oid_of coll = Some ks → StronglySorted N.lt ks →
  d ∈ coll → d !! "_id" = Some (VOid o) →
  List.find (has_oid o) coll = Some d.
Proof.
  induction coll as [|d0 coll IH]; intros ks d Hks Hs Hd Ho.
  - by apply elem_of_nil in Hd.
  - apply mapM_Some in Hks.
    inversion Hks as [|? k0 ? ks' Hk0 Hks']; subst.
    inversion Hs as [|? ? Hs' Hlt]; subst. simpl.
    apply elem_of_cons in Hd as [->|Hd].
    + unfold has_oid. rewrite Ho. by rewrite oid_eqb_refl.
    + rewrite (has_oid_key _ _ _ Hk0).
      apply mapM_Some in Hks'.
      destruct (keyed_member _ _ _ _ Hks' Hd Ho) as [Heq Hin].
      rewrite Forall_forall in Hlt. apply list_elem_of_In in Hin.
      specialize (Hlt _ Hin).
      assert (oid_eqb o (mkObjectId k0) = false) as ->.
      { unfold oid_eqb, mkObjectId. simpl.
        destruct (N.eqb_spec (oid_value o) k0); [lia|]. apply andb_false_r. }
      by eapply IH.
Qed.

Lemma ordered_key_below n (coll : list doc) (d : doc) o :
  ordered_below n coll → d ∈ coll → d !! "_id" = Some (VOid o) →
  oid_size o = 12%nat ∧ oid_value o < n.
Proof.
  intros (ks & Hks & _ & Hb) Hd Ho.
  destruct (keyed_member _ _ _ _ Hks Hd Ho) as [Heq Hin]. split.
  - by rewrite Heq.
  - rewrite Forall_forall in Hb. apply Hb. by apply list_elem_of_In.
Qed.

(** *** Newest first *)

Lemma insert_desc_last k (d : doc) (l : list (N * doc)) :
  Forall (λ kd, k < kd.1) l → insert_desc k d l = l ++ [(k, d)].
Proof.
  induction 1 as [|[k' d'] l Hk _ IH]; simpl; [done|]. simpl in Hk.
  destruct (N.ltb_spec k' k); [lia|]. by rewrite IH.
Qed.

Lemma sort_keyed (l : list doc) : ∀ ks,
  mapM oid_of l = Some ks → StronglySorted N.lt ks →
  ∃ keyed, mapM (λ d : doc, k ← oid_of d; Some (k, d)) l = Some keyed
           ∧ keyed.*1 = ks ∧ keyed.*2 = l
           ∧ foldr (λ (kd : N * doc) acc, insert_desc kd.1 kd.2 acc) [] keyed
             = reverse keyed.
Proof.
  induction l as [|d l IH]; intros ks Hks Hs.
  - injection Hks as <-. by exists [].
  - simpl in Hks. destruct (oid_of d) as [k|] eqn:Ek; [|discriminate].
    cbn [mbind option_bind] in Hks.
    destruct (mapM oid_of l) as [ks'|] eqn:El; [|discriminate].
    cbn [mbind option_bind] in Hks. injection Hks as <-.
    inversion Hs as [|? ? Hs' Hlt]; subst.
    destruct (IH ks' eq_refl Hs') as (keyed & Hm & H1 & H2 & Hf).
    exists ((k, d) :: keyed). split; [|split; [|split]].
    + simpl. rewrite Ek. cbn [mbind option_bind]. by rewrite Hm.
    + rewrite fmap_cons. simpl. by f_equal.
    + rewrite fmap_cons. simpl. by f_equal.
    + cbn [foldr fst snd]. rewrite Hf, reverse_cons. apply insert_desc_last.
      apply Forall_reverse. rewrite <- H1 in Hlt.
      apply Forall_forall. intros [k' d'] Hin. simpl.
      rewrite Forall_forall in Hlt. apply Hlt.
      apply in_map_iff. by exists (k', d').
Qed.

Lemma sort_id_desc_ordered n (l : list doc) :
  ordered_below n l → sort_id_desc l = Some (reverse l).
Proof.
  intros (ks & Hks & Hs & _).
  destruct (sort_keyed l ks Hks Hs) as (keyed & Hm & _ & H2 & Hf).
  unfold sort_id_desc. rewrite Hm. cbn [mbind option_bind].
  by rewrite Hf, fmap_reverse, H2.
Qed.

End Ordered.

(** X8. The identifier a response shows for a document fetches that
    document: for a store with ordered identifiers that has handed out at
    most [2^96] of them, looking a stored document up by the text of its
    identifier returns its public form, whose ["id"] is that text. *)
Theorem stored_document_fetched_by_id :
  ∀ db coll (d : doc) o,
    db_ordered db → (next_oid db ≤ 2 ^ 96)%N →
    d ∈ collection db coll → d !! "_id" = Some (VOid o) →
    get_by_id coll (Some db) (ObjectId_str o) = Some (Json (VDict (public_form o d)))
    ∧ public_form o d !! "id" = Some (VStr (ObjectId_str o)).
Proof.
  intros db coll d o Ho Hn Hd Hid. split; [|apply public_form_lookup_id].
  pose proof (Ho coll) as Hc.
  rewrite (get_by_id_present _ _ _ (ordered_below_well_identified _ _ Hc)).
  destruct (ordered_key_below _ _ _ _ Hc Hd Hid) as [Hsz Hlt'].
  assert (oid_value o < 2 ^ 96)%N as Hlt by lia.
  rewrite (ObjectId_roundtrip _ Hsz Hlt).
  destruct Hc as (ks & Hks & Hs & _).
  by rewrite (find_unique o _ ks d Hks Hs Hd Hid).
Qed.

Lemma stored_document_fetched_by_id_witness :
  get_product (Some seeded) "000000000000000000000000"
    = Some (Json (VDict (public_form (mkObjectId 0) glass_card_pro))).
Proof.
  assert (db_ordered seeded) as Hs by apply seeded_ordered.
  assert (glass_card_pro ∈ collection seeded "product") as Hd.
  { change (collection seeded "product") with
      (glass_card_pro :: tail (collection seeded "product")).
    apply elem_of_cons. by left. }
  exact (proj1 (stored_document_fetched_by_id seeded "product" glass_card_pro
                  (mkObjectId 0) Hs ltac:(vm_compute; discriminate) Hd eq_refl)).
Defined.

(** X9. The blog listing is newest first: with ordered identifiers it
    returns the stored posts in the reverse of insertion order, after
    [skip] and up to [limit], each in its public form. *)
Theorem list_blogs_newest_first :
  ∀ db limit skip,
    db_ordered db → 0 ≤ skip → 1 ≤ limit →
    list_blogs (Some db) limit skip
      = Some (Json (VList (VDict <$> (publish <$>
          take (Z.to_nat limit) (drop (Z.to_nat skip)
            (reverse (collection db "blogpost"))))))).
Proof.
  intros db limit skip Ho Hs Hl. unfold list_blogs. rewrite find_all.
  cbn [mbind option_bind]. rewrite (sort_id_desc_ordered _ _ (Ho "blogpost")).
  cbn [mbind option_bind]. rewrite skip_limit_ok by done.
  cbn [mbind option_bind]. rewrite serialize_all_published; [done|].
  apply Forall_take, Forall_drop, Forall_reverse.
  apply (ordered_below_well_identified _ _ (Ho "blogpost")).
Qed.

Lemma list_blogs_newest_first_witness :
  (list_blogs (Some seeded) 1 0
     ≫= λ r, match r with
             | Json (VList [VDict d]) => d !! "title"
             | _ => None
             end)
    = Some (VStr "How We Built Metal Card X").
Proof.
  rewrite (list_blogs_newest_first seeded 1 0 seeded_ordered ltac:(lia) ltac:(lia)).
  vm_compute. reflexivity.
Defined.

(** ** Seeding *)

Section Seeding.
Local Open Scope list_scope.

Lemma count_documents_all (coll : list doc) :
  count_documents coll ∅ = Some (length coll).
Proof. unfold count_documents. by rewrite find_all. Qed.

Lemma collection_with_inserted db name (d : doc) other :
  collection (with_inserted db name d) other
    = if decide (name = other) then collection db name ++ [stored_as db d]
      else collection db other.
Proof. unfold with_inserted. apply collection_insert. Qed.

Lemma insert_many_other name (ds : list doc) other : ∀ db db',
  name ≠ other → insert_many db name ds = Some db' →
  collection db' other = collection db other.
Proof.
  induction ds as [|d ds IH]; simpl; intros db db' Hne H.
  - by injection H as <-.
  - destruct (insert_one db name d) as [[[o db1]|]|] eqn:E; try discriminate.
    cbn [mbind option_bind] in H. apply insert_one_inv in E as [_ ->].
    rewrite (IH _ _ Hne H), collection_with_inserted. by rewrite decide_False.
Qed.

Lemma insert_many_collection name (ds : list doc) : ∀ db db',
  insert_many db name ds = Some db' →
  collection db' name = collection db name ++ stored_from (next_oid db) ds.
Proof.
  induction ds as [|d ds IH]; simpl; intros db db' H.
  - injection H as <-. by rewrite app_nil_r.
  - destruct (insert_one db name d) as [[[o db1]|]|] eqn:E; try discriminate.
    cbn [mbind option_bind] in H. apply insert_one_inv in E as [_ ->].
    rewrite (IH _ _ H), collection_with_inserted, decide_True by done.
    by rewrite <- app_assoc.
Qed.

Lemma insert_many_length name (ds : list doc) : ∀ db db',
  insert_many db name ds = Some db' →
  length (collection db' name) = (length (collection db name) + length ds)%nat.
Proof.
  induction ds as [|d ds IH]; simpl; intros db db' H.
  - injection H as <-. lia.
  - destruct (insert_one db name d) as [[[o db1]|]|] eqn:E; try discriminate.
    cbn [mbind option_bind] in H. apply insert_one_inv in E as [_ ->].
    rewrite (IH _ _ H), collection_with_inserted, decide_True by done.
    rewrite length_app. simpl. lia.
Qed.

Lemma seed_database_steps db :
  seed_database (Some db)
    = (db1 ← seed_step db "product" sample_products;
       db2 ← seed_step db1 "blogpost" sample_posts;
       Some (Some db2)).
Proof.
  unfold seed_database, seed_step. rewrite !count_documents_all.
  cbn [mbind option_bind]. destruct (if (_ =? 0)%nat then _ else _) as [db1|]; [|done].
  cbn [mbind option_bind]. by rewrite !count_documents_all.
Qed.

Lemma seed_step_other db name samples db' other :
  name ≠ other → seed_step db name samples = Some db' →
  collection db' other = collection db other.
Proof.
  unfold seed_step. rewrite count_documents_all. cbn [mbind option_bind].
  intros Hne H. destruct (_ =? 0)%nat.
  - by eapply insert_many_other.
  - by injection H as <-.
Qed.

Lemma seed_step_nonempty db name samples db' :
  collection db name ≠ [] → seed_step db name samples = Some db' → db' = db.
Proof.
  unfold seed_step. rewrite count_documents_all. cbn [mbind option_bind].
  intros Hne H. destruct (collection db name) eqn:E; [done|]. simpl in H.
  by injection H as <-.
Qed.

Lemma seed_step_filled db name samples db' :
  samples ≠ [] → seed_step db name samples = Some db' → collection db' name ≠ [].
Proof.
  unfold seed_step. rewrite count_documents_all. cbn [mbind option_bind].
  intros Hs H. destruct (length (collection db name) =? 0)%nat eqn:E.
  - apply insert_many_length in H. intros Hnil. rewrite Hnil in H. simpl in H.
    destruct samples; [done|]. simpl in H. lia.
  - injection H as <-. apply Nat.eqb_neq in E. intros Hnil. by rewrite Hnil in E.
Qed.

Lemma seed_step_empty db name samples db' :
  collection db name = [] → seed_step db name samples = Some db' →
  collection db' name = stored_from (next_oid db) samples.
Proof.
  unfold seed_step. rewrite count_documents_all. cbn [mbind option_bind].
  intros Hnil H. rewrite Hnil in H. simpl in H.
  apply insert_many_collection in H. by rewrite H, Hnil.
Qed.

Lemma seed_database_inv db db' :
  seed_database (Some db) = Some (Some db') →
  ∃ db1, seed_step db "product" sample_products = Some db1
         ∧ seed_step db1 "blogpost" sample_posts = Some db'.
Proof.
  rewrite seed_database_steps.
  destruct (seed_step db _ _) as [db1|]; [|discriminate]. cbn [mbind option_bind].
  destruct (seed_step db1 _ _) as [db2|] eqn:E; [|discriminate].
  cbn [mbind option_bind]. intros [= <-]. eauto.
Qed.

Lemma blogpost_not_product : "blogpost" ≠ "product".
Proof. done. Qed.

Lemma product_not_blogpost : "product" ≠ "blogpost".
Proof. done. Qed.

Lemma seed_database_fixed db db' :
  seed_database (Some db) = Some (Some db') →
  seed_database (Some db') = Some (Some db').
Proof.
  intros (db1 & H1 & H2)%seed_database_inv.
  assert (collection db' "product" ≠ []) as Hp.
  { rewrite (seed_step_other _ _ _ _ _ blogpost_not_product H2).
    eapply seed_step_filled; [|exact H1]. done. }
  assert (collection db' "blogpost" ≠ []) as Hb.
  { eapply seed_step_filled; [|exact H2]. done. }
  rewrite seed_database_steps. unfold seed_step. rewrite !count_documents_all.
  cbn [mbind option_bind].
  destruct (collection db' "product"); [done|]. simpl. rewrite count_documents_all.
  cbn [mbind option_bind]. by destruct (collection db' "blogpost").
Qed.

Lemma seed_database_keeps db db' name :
  seed_database (Some db) = Some (Some db') →
  (name ≠ "product" ∧ name ≠ "blogpost") ∨ collection db name ≠ [] →
  collection db' name = collection db name.
Proof.
  intros (db1 & H1 & H2)%seed_database_inv H.
  destruct (decide (name = "product")) as [->|Hp].
  - destruct H as [[? _]|H]; [done|].
    rewrite (seed_step_other _ _ _ _ _ blogpost_not_product H2).
    by rewrite (seed_step_nonempty _ _ _ _ H H1).
  - assert ("product" ≠ name) as Hp' by done.
    rewrite <- (seed_step_other _ _ _ _ _ Hp' H1).
    destruct (decide (name = "blogpost")) as [->|Hb].
    + destruct H as [[_ ?]|H]; [done|].
      rewrite <- (seed_step_other _ _ _ _ _ product_not_blogpost H1) in H.
      by rewrite (seed_step_nonempty _ _ _ _ H H2).
    + assert ("blogpost" ≠ name) as Hb' by done.
      by rewrite (seed_step_other _ _ _ _ _ Hb' H2).
Qed.

Lemma seed_database_fills db db' :
  seed_database (Some db) = Some (Some db') →
  (collection db "product" = [] →
   ∃ n, collection db' "product" = stored_from n sample_products)
  ∧ (collection db "blogpost" = [] →
     ∃ n, collection db' "blogpost" = stored_from n sample_posts).
Proof.
  intros (db1 & H1 & H2)%seed_database_inv. split; intros Hnil.
  - rewrite (seed_step_other _ _ _ _ _ blogpost_not_product H2).
    rewrite (seed_step_empty _ _ _ _ Hnil H1). eauto.
  - rewrite <- (seed_step_other _ _ _ _ _ product_not_blogpost H1) in Hnil.
    rewrite (seed_step_empty _ _ _ _ Hnil H2). eauto.
Qed.

Lemma stored_from_unstored n (ds : list doc) :
  Forall (λ d : doc, d !! "_id" = None) ds →
  (delete "_id" <$> stored_from n ds) = ds ∧ well_identified (stored_from n ds).
Proof.
  intros H. revert n. induction H as [|d ds Hd _ IH]; intros n; simpl.
  - split; [done | constructor].
  - destruct (IH (n + 1)%N) as [IH1 IH2]. split.
    + cbn [fmap list_fmap]. f_equal; [by apply delete_insert_id | apply IH1].
    + constructor; [|done]. eexists. apply lookup_insert_eq.
Qed.

Lemma insert_many_total name (ds : list doc) : ∀ db,
  Forall (λ d : doc, d !! "_id" = None ∧ bson_encodable (VDict d) = true) ds →
  is_Some (insert_many db name ds).
Proof.
  induction ds as [|d ds IH]; intros db H; simpl; [done|].
  inversion H as [|? ? [Hd He] Hds]; subst.
  rewrite (insert_one_with_inserted _ _ _ Hd He). cbn [mbind option_bind].
  by apply IH.
Qed.

Lemma seed_step_total db name samples :
  Forall (λ d : doc, d !! "_id" = None ∧ bson_encodable (VDict d) = true) samples →
  is_Some (seed_step db name samples).
Proof.
  intros H. unfold seed_step. rewrite count_documents_all. cbn [mbind option_bind].
  destruct (_ =? 0)%nat; [by apply insert_many_total | done].
Qed.

Lemma seed_database_total db : ∃ db', seed_database (Some db) = Some (Some db').
Proof.
  rewrite seed_database_steps.
  destruct (seed_step_total db "product" sample_products) as [db1 H1].
  { repeat constructor. }
  rewrite H1. cbn [mbind option_bind].
  destruct (seed_step_total db1 "blogpost" sample_posts) as [db2 H2].
  { repeat constructor. }
  rewrite H2. cbn [mbind option_bind]. eauto.
Qed.

End Seeding.

(** X10. Seeding always succeeds on a store and is idempotent: seeding
    the store it returns returns that store again.  Without a store it
    does nothing. *)
Theorem seed_database_idempotent :
  (∀ db, ∃ db', seed_database (Some db) = Some (Some db')
                ∧ seed_database (Some db') = Some (Some db'))
  ∧ seed_database None = Some None.
Proof.
  split; [|done]. intros db. destruct (seed_database_total db) as [db' H].
  exists db'. split; [done | exact (seed_database_fixed db db' H)].
Qed.

(** X11. Seeding fills only what is empty: a product or blog collection
    that already holds a document is left as it is, every other collection
    is left as it is, and an empty product or blog collection receives
    exactly the three sample products or the two sample posts, in the
    order of the source, each with a new identifier and otherwise as
    written there. *)
Theorem seed_database_fills_only_empty :
  ∀ db db', seed_database (Some db) = Some (Some db') →
    (∀ name, (name ≠ "product" ∧ name ≠ "blogpost") ∨ collection db name ≠ [] →
             collection db' name = collection db name)
    ∧ (collection db "product" = [] →
       ∃ n, collection db' "product" = stored_from n sample_products
            ∧ (delete "_id" <$> collection db' "product") = sample_products
            ∧ well_identified (collection db' "product"))
    ∧ (collection db "blogpost" = [] →
       ∃ n, collection db' "blogpost" = stored_from n sample_posts
            ∧ (delete "_id" <$> collection db' "blogpost") = sample_posts
            ∧ well_identified (collection db' "blogpost")).
Proof.
  intros db db' H. split; [|split].
  - intros name. by apply seed_database_keeps.
  - intros Hnil. destruct (proj1 (seed_database_fills _ _ H) Hnil) as [n Hn].
    exists n. rewrite Hn. split; [done|].
    apply stored_from_unstored. repeat constructor.
  - intros Hnil. destruct (proj2 (seed_database_fills _ _ H) Hnil) as [n Hn].
    exists n. rewrite Hn. split; [done|].
    apply stored_from_unstored. repeat constructor.
Qed.

Lemma seed_database_fills_only_empty_witness :
  collection seeded "user" = collection empty_database "user"
  ∧ (delete "_id" <$> collection seeded "product") = sample_products.
Proof.
  assert (seed_database (Some empty_database) = Some (Some seeded)) as H
    by (vm_compute; reflexivity).
  split.
  - apply (proj1 (seed_database_fills_only_empty empty_database seeded H) "user").
    left. split; discriminate.
  - destruct (proj1 (proj2 (seed_database_fills_only_empty empty_database seeded H))
                eq_refl) as (n & _ & Hn & _).
    exact Hn.
Defined.

(** ** Orders and contact messages *)

Section MoreWrites.
Local Open Scope list_scope.

Lemma dump_Order_no_id order : dump_Order order !! "_id" = None.
Proof. unfold dump_Order. by simplify_map_eq. Qed.

Lemma dump_Order_payment order :
  dump_Order order !! "payment" = Some (VDict (dump_PaymentInfo (payment order))).
Proof. unfold dump_Order. by simplify_map_eq. Qed.

Lemma dump_Order_status order :
  dump_Order order !! "status" = Some (VStr (order_status order)).
Proof. unfold dump_Order. by simplify_map_eq. Qed.

Lemma dump_ContactIn_no_id payload : dump_ContactIn payload !! "_id" = None.
Proof. unfold dump_ContactIn. by simplify_map_eq. Qed.

Lemma dump_ContactIn_encodable payload :
  bson_encodable (VDict (dump_ContactIn payload)) = true.
Proof. reflexivity. Qed.

Lemma dump_ShippingInfo_encodable s :
  bson_encodable (VDict (dump_ShippingInfo s)) = true.
Proof. reflexivity. Qed.

Lemma dump_PaymentInfo_encodable p :
  bson_encodable (VDict (dump_PaymentInfo p)) = true.
Proof. reflexivity. Qed.

Lemma dump_OrderItem_encodable i :
  bson_encodable (VDict (dump_OrderItem i)) = int64 (quantity i).
Proof.
  apply Bool.eq_iff_eq_true. rewrite bson_encodable_dict. split.
  - intros H. apply (H "quantity" (VInt (quantity i))).
    unfold dump_OrderItem. by simplify_map_eq.
  - intros Hq k v Hk. unfold dump_OrderItem in Hk.
    repeat (apply lookup_insert_Some in Hk as [[_ <-]|[_ Hk]]; [try done|]).
    + by destruct (item_thumbnail i).
    + by rewrite lookup_empty in Hk.
Qed.

Lemma items_encodable (l : list OrderItem) :
  bson_encodable (VList (VDict <$> (dump_OrderItem <$> l)))
    = forallb (λ i, int64 (quantity i)) l.
Proof.
  cbn [bson_encodable]. induction l as [|i l IH]; [done|].
  cbn [fmap list_fmap forallb]. rewrite <- IH.
  f_equal. apply dump_OrderItem_encodable.
Qed.

(** The encoder accepts an order exactly when its quantities fit. *)
Lemma dump_Order_encodable order :
  bson_encodable (VDict (dump_Order order)) = quantities_fit order.
Proof.
  apply Bool.eq_iff_eq_true. rewrite bson_encodable_dict. split.
  - intros H. unfold quantities_fit. rewrite <- items_encodable.
    apply (H "items"). unfold dump_Order. by simplify_map_eq.
  - intros Hq k v Hk. unfold dump_Order in Hk.
    repeat (apply lookup_insert_Some in Hk as [[_ <-]|[_ Hk]]; [try done|]).
    + by rewrite items_encodable.
    + by rewrite lookup_empty in Hk.
Qed.

Lemma create_order_present db order :
  create_order (Some db) order
    = Some (if quantities_fit order
            then (order_created (mkObjectId (next_oid db)),
                  Some (with_inserted db "order" (dump_Order order)))
            else (InternalServerError, Some db)).
Proof.
  unfold create_order, dict_get. rewrite dump_Order_payment. simpl default.
  rewrite (insert_id _ _ _ (dump_Order_payment order)).
  destruct (quantities_fit order) eqn:E.
  - rewrite (insert_one_with_inserted _ _ _ (dump_Order_no_id order))
      by (by rewrite dump_Order_encodable).
    reflexivity.
  - rewrite (insert_one_raises _ _ _ (dump_Order_no_id order))
      by (by rewrite dump_Order_encodable).
    reflexivity.
Qed.

Lemma submit_contact_present db payload :
  submit_contact (Some db) payload
    = Some (Json (VDict (<["status" := VStr "ok"]>
                        (<["id" := VStr (ObjectId_str (mkObjectId (next_oid db)))]> ∅))),
            Some (with_inserted db "contact" (dump_ContactIn payload))).
Proof.
  unfold submit_contact, create_document.
  by rewrite (insert_one_with_inserted _ _ _ (dump_ContactIn_no_id payload)
                (dump_ContactIn_encodable payload)).
Qed.

End MoreWrites.

(** X12. With a store, order creation checks nothing of the order's
    content.  When every quantity fits the eight bytes the store has for
    an integer, it stores the order's dictionary as it is, with a new
    identifier, as the last document of the order collection; the stored
    payment and status are the order's own (the default payment is not
    used, the stored status is not forced to "created"); every other
    collection is untouched; and the response carries the identifier's
    text, the status "created" and the checkout address ending in that
    text.  When a quantity does not fit, the insert raises, the answer is
    status 500 and nothing is stored. *)
Theorem create_order_stores_order :
  ∀ db order,
    (quantities_fit order = true →
     create_order (Some db) order
       = Some (order_created (mkObjectId (next_oid db)),
               Some (with_inserted db "order" (dump_Order order))))
    ∧ (quantities_fit order = false →
       create_order (Some db) order = Some (InternalServerError, Some db)
       ∧ status InternalServerError = 500)
    ∧ collection (with_inserted db "order" (dump_Order order)) "order"
      = (collection db "order" ++ [stored_as db (dump_Order order)])%list
    ∧ stored_as db (dump_Order order) !! "payment"
      = Some (VDict (dump_PaymentInfo (payment order)))
    ∧ stored_as db (dump_Order order) !! "status" = Some (VStr (order_status order))
    ∧ ∀ name, name ≠ "order" →
        collection (with_inserted db "order" (dump_Order order)) name
          = collection db name.
Proof.
  intros db order.
  split; [intros H; by rewrite create_order_present, H|].
  split; [intros H; by rewrite create_order_present, H|].
  split; [by rewrite collection_with_inserted, decide_True|].
  split; [unfold stored_as; rewrite lookup_insert_ne by done; apply dump_Order_payment|].
  split; [unfold stored_as; rewrite lookup_insert_ne by done; apply dump_Order_status|].
  intros name H. rewrite collection_with_inserted. by rewrite decide_False.
Qed.

Lemma create_order_stores_order_witness :
  create_order (Some seeded) (order_of_quantity 1)
    = Some (order_created (mkObjectId (next_oid seeded)),
            Some (with_inserted seeded "order" (dump_Order (order_of_quantity 1))))
  ∧ create_order (Some seeded) (order_of_quantity (2 ^ 63))
    = Some (InternalServerError, Some seeded).
Proof.
  split.
  - exact (proj1 (create_order_stores_order seeded (order_of_quantity 1)) eq_refl).
  - exact (proj1 (proj1 (proj2 (create_order_stores_order seeded
                                  (order_of_quantity (2 ^ 63)))) eq_refl)).
Defined.

(** X13. With a store, contact submission always succeeds and checks for
    nothing: it appends the three fields with a fresh identifier to the
    contact collection and returns the identifier's text, so the same
    message submitted twice is stored twice, under two identifiers. *)
Theorem submit_contact_appends :
  ∀ db payload,
    submit_contact (Some db) payload
      = Some (Json (VDict (<["status" := VStr "ok"]>
                   (<["id" := VStr (ObjectId_str (mkObjectId (next_oid db)))]> ∅))),
              Some (with_inserted db "contact" (dump_ContactIn payload)))
    ∧ (snd <$> submit_contact
                 (Some (with_inserted db "contact" (dump_ContactIn payload))) payload)
      = Some (Some (with_inserted (with_inserted db "contact" (dump_ContactIn payload))
                      "contact" (dump_ContactIn payload)))
    ∧ collection (with_inserted (with_inserted db "contact" (dump_ContactIn payload))
                    "contact" (dump_ContactIn payload)) "contact"
      = (collection db "contact"
           ++ [<["_id" := VOid (mkObjectId (next_oid db))]> (dump_ContactIn payload);
               <["_id" := VOid (mkObjectId (next_oid db + 1))]> (dump_ContactIn payload)])%list.
Proof.
  intros db payload. split; [apply submit_contact_present|]. split.
  - by rewrite submit_contact_present.
  - rewrite !collection_with_inserted, !decide_True by done.
    by rewrite <- app_assoc.
Qed.

(** ** Payment defaults at the boundary *)

Section PaymentDefaults.

Variable validate_str : value → option string.
Variable validate_float : value → option spec_float.
Variable validate_int : value → option Z.
Variable validate_email : value → option string.

Lemma validate_Order_payment (d : doc) order :
  validate_Order validate_str validate_float validate_int validate_email (VDict d)
    = Some order →
  ∃ v, d !! "payment" = Some v ∧ validate_PaymentInfo validate_str v = Some (payment order).
Proof.
  unfold validate_Order. cbn [as_dict mbind option_bind].
  destruct (required _ d "items"); [|discriminate]. cbn [mbind option_bind].
  destruct (required _ d "subtotal"); [|discriminate]. cbn [mbind option_bind].
  destruct (required _ d "shipping_cost"); [|discriminate]. cbn [mbind option_bind].
  destruct (required _ d "total"); [|discriminate]. cbn [mbind option_bind].
  destruct (required _ d "shipping"); [|discriminate]. cbn [mbind option_bind].
  unfold required at 1. destruct (d !! "payment") as [v|]; [|discriminate].
  cbn [mbind option_bind].
  destruct (validate_PaymentInfo validate_str v) as [p|] eqn:E; [|discriminate].
  cbn [mbind option_bind].
  destruct (defaulted _ _ d "status"); [|discriminate]. cbn [mbind option_bind].
  intros [= <-]. eauto.
Qed.

Lemma validate_PaymentInfo_fields (p : doc) info :
  validate_PaymentInfo validate_str (VDict p) = Some info →
  (p !! "method" = None → method info = "cod")
  ∧ (p !! "status" = None → payment_status info = "pending").
Proof.
  unfold validate_PaymentInfo, defaulted. cbn [as_dict mbind option_bind].
  destruct (p !! "method") as [m|], (p !! "status") as [s|];
    cbn [mbind option_bind];
    repeat match goal with
           | |- context [validate_str ?x] => destruct (validate_str x)
           end;
    cbn [mbind option_bind]; try discriminate; intros [= <-]; by split.
Qed.

End PaymentDefaults.

(** X14. The payment defaults are per field and only for a payment object
    that is present: when a body validates as an order, its payment is a
    dictionary, and a field the dictionary leaves out is stored with its
    default (method "cod", status "pending"). *)
Theorem payment_fields_default :
  ∀ (validate_str : value → option string)
    (validate_float : value → option spec_float)
    (validate_int : value → option Z)
    (validate_email : value → option string) (d : doc) order,
    validate_Order validate_str validate_float validate_int validate_email (VDict d)
      = Some order →
    ∃ p, d !! "payment" = Some (VDict p)
         ∧ (p !! "method" = None → method (payment order) = "cod")
         ∧ (p !! "status" = None → payment_status (payment order) = "pending").
Proof.
  intros vs vf vi ve d order H.
  destruct (validate_Order_payment _ _ _ _ _ _ H) as (v & Hv & Hp).
  destruct v as [| | | | | | |p]; try discriminate.
  exists p. split; [done|]. by eapply validate_PaymentInfo_fields.
Qed.

Lemma payment_fields_default_witness :
  ∃ order,
    validate_Order accept_str accept_float accept_int accept_str order_with_empty_payment
      = Some order
    ∧ payment order = mkPaymentInfo "cod" "pending".
Proof.
  destruct (validate_Order accept_str accept_float accept_int accept_str
              order_with_empty_payment) as [order|] eqn:E; [|by vm_compute in E].
  exists order. split; [done|].
  destruct (payment_fields_default accept_str accept_float accept_int accept_str
              _ order E) as (p & Hp & Hm & Hs).
  vm_compute in Hp. injection Hp as <-.
  destruct (payment order) as [m s]. simpl in *.
  by rewrite (Hm eq_refl), (Hs eq_refl).
Defined.

(** ** Login *)

Section Login.
Local Open Scope list_scope.

Lemma matches_credentials e p (d : doc) e' p' :
  d !! "email" = Some (VStr e') → d !! "password" = Some (VStr p') →
  matches_filter (<["email" := CEqStr e]> {["password" := CEqStr p]}) d
    = Some (has_email e d && has_password p d).
Proof.
  intros He Hp. rewrite matches_filter_insert by done.
  rewrite matches_filter_singleton, He, Hp, !holds_eq_str.
  cbn [mbind option_bind]. unfold has_email, has_password. rewrite He, Hp.
  by rewrite andb_true_r.
Qed.

Lemma login_present db payload :
  users_shaped db → well_identified (collection db "user") →
  login (Some db) payload
    = Some match List.find (λ d, has_email (login_email payload) d
                                 && has_password (login_password payload) d)
                   (collection db "user") with
           | None => HTTPException 401 "Invalid credentials"
           | Some d => Json (login_body (publish d))
           end.
Proof.
  intros Hs Hw. unfold login.
  rewrite (find_one_filter (λ d, has_email (login_email payload) d
                                 && has_password (login_password payload) d)).
  - cbn [mbind option_bind].
    destruct (List.find _ _) as [d|] eqn:E; [|done].
    apply find_some in E as [Hd E]. unfold well_identified in Hw.
    rewrite Forall_forall in Hw. destruct (Hw d Hd) as [o Ho].
    simpl. rewrite (map_is_empty_false _ _ _ Ho). simpl.
    rewrite (serialize_doc_oid _ _ Ho), (publish_oid _ _ Ho). done.
  - eapply Forall_impl; [|exact Hs]. intros d (e & p & He & Hp). simpl.
    by eapply matches_credentials.
Qed.

Lemma find_app_none {A} (f : A → bool) (l : list A) x :
  (∀ y, y ∈ l → f y = false) → List.find f (l ++ [x]) = if f x then Some x else None.
Proof.
  induction l as [|y l IH]; intros H; simpl; [done|].
  rewrite (H y) by (apply elem_of_cons; by left).
  apply IH. intros z Hz. apply H. apply elem_of_cons. by right.
Qed.

Lemma stored_user_email db user :
  stored_as db (dump_RegisterIn user) !! "email" = Some (VStr (email user)).
Proof. unfold stored_as. rewrite lookup_insert_ne by done. apply dump_RegisterIn_email. Qed.

Lemma stored_user_password db user :
  stored_as db (dump_RegisterIn user) !! "password" = Some (VStr (password user)).
Proof.
  unfold stored_as, dump_RegisterIn. by simplify_map_eq.
Qed.

Lemma register_new db user :
  users_shaped db →
  (∀ d, d ∈ collection db "user" → has_email (email user) d = false) →
  register (Some db) user
    = Some (Json (VDict (<["status" := VStr "ok"]>
                 (<["user_id" := VStr (ObjectId_str (mkObjectId (next_oid db)))]> ∅))),
            Some (with_inserted db "user" (dump_RegisterIn user))).
Proof.
  intros Hs Hn. apply register_free. intros d Hd.
  unfold users_shaped in Hs. rewrite Forall_forall in Hs.
  destruct (Hs d (proj1 (list_elem_of_In _ _) Hd)) as (e & p & He & _).
  exists e. split; [done|]. specialize (Hn d Hd). unfold has_email in Hn.
  rewrite He in Hn. apply String.eqb_neq in Hn. congruence.
Qed.

Lemma users_shaped_with_inserted db user :
  users_shaped db → users_shaped (with_inserted db "user" (dump_RegisterIn user)).
Proof.
  intros H. unfold users_shaped. rewrite collection_with_inserted, decide_True by done.
  apply Forall_app. split; [exact H|]. constructor; [|constructor].
  exists (email user), (password user).
  split; [apply stored_user_email | apply stored_user_password].
Qed.

Lemma login_after_register db user p :
  db_ordered db → users_shaped db →
  (∀ d, d ∈ collection db "user" → has_email (email user) d = false) →
  login (Some (with_inserted db "user" (dump_RegisterIn user)))
        (mkLoginIn (email user) p)
    = Some (if String.eqb p (password user)
            then Json (login_body (public_form (mkObjectId (next_oid db))
                                     (stored_as db (dump_RegisterIn user))))
            else HTTPException 401 "Invalid credentials").
Proof.
  intros Ho Hs Hn.
  rewrite login_present.
  - simpl login_email. simpl login_password.
    rewrite collection_with_inserted, decide_True by done.
    rewrite find_app_none.
    + unfold has_email at 1, has_password at 1.
      rewrite stored_user_email, stored_user_password, String.eqb_refl. simpl.
      destruct (String.eqb p (password user)); [|done].
      unfold publish, stored_as. by rewrite lookup_insert_eq.
    + intros d Hd. by rewrite (Hn d Hd).
  - by apply users_shaped_with_inserted.
  - apply ordered_below_well_identified with (n := (next_oid db + 1)%N).
    by apply with_inserted_ordered.
Qed.

End Login.

(** X15. With a store, login succeeds exactly for the first stored user
    whose email and password both equal the given strings, and returns the
    fixed token with that user's public form; when no stored user has
    both, a mismatch in either field alone included, it answers 401. *)
Theorem login_exact_match :
  ∀ db payload,
    users_shaped db → well_identified (collection db "user") →
    login (Some db) payload
      = Some match List.find (λ d, has_email (login_email payload) d
                                   && has_password (login_password payload) d)
                     (collection db "user") with
             | None => HTTPException 401 "Invalid credentials"
             | Some d => Json (login_body (publish d))
             end.
Proof. intros. by apply login_present. Qed.

(** X16. Registration followed by login: after a registration that
    succeeds, logging in with the registered email and password returns
    the registered user, whose ["id"] is the identifier the registration
    returned and whose ["password"] is the password as it was given, in
    clear; with any other password the answer is 401. *)
Theorem register_then_login :
  ∀ db user,
    db_ordered db → users_shaped db →
    (∀ d, d ∈ collection db "user" → has_email (email user) d = false) →
    let db' := with_inserted db "user" (dump_RegisterIn user) in
    let id := ObjectId_str (mkObjectId (next_oid db)) in
    let shown := public_form (mkObjectId (next_oid db))
                   (stored_as db (dump_RegisterIn user)) in
    register (Some db) user
      = Some (Json (VDict (<["status" := VStr "ok"]> (<["user_id" := VStr id]> ∅))),
              Some db')
    ∧ login (Some db') (mkLoginIn (email user) (password user))
      = Some (Json (login_body shown))
    ∧ shown !! "id" = Some (VStr id)
    ∧ shown !! "password" = Some (VStr (password user))
    ∧ ∀ p, p ≠ password user →
        login (Some db') (mkLoginIn (email user) p)
          = Some (HTTPException 401 "Invalid credentials").
Proof.
  intros db user Ho Hs Hn db' id shown. split; [by apply register_new|].
  split; [|split; [|split]].
  - unfold db'. rewrite login_after_register by done. by rewrite String.eqb_refl.
  - apply public_form_lookup_id.
  - unfold shown. rewrite public_form_lookup_other by done.
    apply stored_user_password.
  - intros p Hp. unfold db'. rewrite login_after_register by done.
    by rewrite (proj2 (String.eqb_neq _ _) Hp).
Qed.

Lemma login_exact_match_witness :
  login (Some after_first_registration) (mkLoginIn "a@x.com" "p")
    = Some (Json (login_body (publish stored_user_a)))
  ∧ login (Some after_first_registration) (mkLoginIn "a@x.com" "q")
    = Some (HTTPException 401 "Invalid credentials")
  ∧ login (Some after_first_registration) (mkLoginIn "b@x.com" "p")
    = Some (HTTPException 401 "Invalid credentials").
Proof.
  assert (users_shaped after_first_registration) as Hs.
  { unfold users_shaped.
    change (collection after_first_registration "user") with [stored_user_a].
    constructor; [|constructor]. exists "a@x.com", "p". split; reflexivity. }
  assert (well_identified (collection after_first_registration "user")) as Hw
    by (apply well_identified_b_spec; vm_compute; reflexivity).
  split; [|split].
  - rewrite (login_exact_match after_first_registration (mkLoginIn "a@x.com" "p") Hs Hw).
    reflexivity.
  - rewrite (login_exact_match after_first_registration (mkLoginIn "a@x.com" "q") Hs Hw).
    reflexivity.
  - rewrite (login_exact_match after_first_registration (mkLoginIn "b@x.com" "p") Hs Hw).
    reflexivity.
Defined.

Lemma register_then_login_witness :
  login (Some (with_inserted seeded "user" (dump_RegisterIn user_a)))
        (mkLoginIn "a@x.com" "p")
    = Some (Json (login_body (public_form (mkObjectId (next_oid seeded))
                                (stored_as seeded (dump_RegisterIn user_a))))).
Proof.
  assert (users_shaped seeded) as Hs.
  { unfold users_shaped. change (collection seeded "user") with (@nil doc).
    constructor. }
  assert (∀ d : doc, d ∈ collection seeded "user" → has_email (email user_a) d = false)
    as Hn.
  { intros d Hd. change (collection seeded "user") with (@nil doc) in Hd.
    by apply elem_of_nil in Hd. }
  exact (proj1 (proj2 (register_then_login seeded user_a seeded_ordered Hs Hn))).
Defined.

(** ** Identifier validation and other identifiers *)

(** X17. [PyObjectId.validate] returns an identifier as it is and reads
    the 24-digit text of a twelve-byte identifier back to that identifier.
    Every string it accepts has 24 characters and gives at most twelve
    bytes; when it gives fewer (the string held whitespace), the text of
    the identifier it returned is itself refused. *)
Theorem PyObjectId_validate_roundtrip :
  (∀ o, PyObjectId_validate (VOid o) = Some o)
  ∧ (∀ n, (n < 2 ^ 96)%N →
       PyObjectId_validate (VStr (ObjectId_str (mkObjectId n))) = Some (mkObjectId n))
  ∧ (∀ s o, PyObjectId_validate (VStr s) = Some o →
       String.length s = 24%nat ∧ (oid_size o ≤ 12)%nat
       ∧ ((oid_size o < 12)%nat →
          PyObjectId_validate (VStr (ObjectId_str o)) = None)).
Proof.
  split; [done|]. split.
  - intros n H. simpl. by apply ObjectId_roundtrip.
  - intros s o. simpl. unfold ObjectId_parse at 1.
    destruct (Nat.eqb_spec (String.length s) 24) as [Hl|]; [|discriminate].
    destruct (fromhex s 0 0) as [[size v]|] eqn:E; [|discriminate].
    simpl. intros [= <-]. simpl.
    apply fromhex_size in E as [_ E]. rewrite Hl in E.
    split; [done|]. split; [lia|]. intros Hlt. unfold ObjectId_parse.
    rewrite ObjectId_str_length. simpl oid_size.
    by rewrite (proj2 (Nat.eqb_neq (2 * size) 24) ltac:(lia)).
Qed.

Lemma PyObjectId_validate_roundtrip_witness :
  PyObjectId_validate (VStr "0000000000000000000000ff") = Some (mkObjectId 255)
  ∧ PyObjectId_validate (VStr "00 00 00 00 00 00 00 00 ") = Some (mkOid 8 0)
  ∧ PyObjectId_validate (VStr (ObjectId_str (mkOid 8 0))) = None.
Proof.
  split; [|split].
  - apply (proj1 (proj2 PyObjectId_validate_roundtrip) 255%N).
    vm_compute. reflexivity.
  - reflexivity.
  - apply (proj2 (proj2 PyObjectId_validate_roundtrip) "00 00 00 00 00 00 00 00 "
             (mkOid 8 0) eq_refl).
    simpl. lia.
Defined.

(** X18. Serialization of a document whose ["_id"] is not a store-assigned
    identifier: a false value (zero, the empty string, [None]) is left
    under ["_id"] and ["id"] is set to null; a true value whose text is
    modelled is removed and its text put under ["id"]. *)
Theorem serialize_doc_other_identifiers :
  ∀ (d : doc) v, d !! "_id" = Some v →
    (truthy v = false →
       serialize_doc d = Some (<["id" := VNone]> d)
       ∧ (<["id" := VNone]> d : doc) !! "_id" = Some v)
    ∧ (∀ s, truthy v = true → py_str v = Some s →
         serialize_doc d = Some (<["id" := VStr s]> (delete "_id" d))
         ∧ (<["id" := VStr s]> (delete "_id" d) : doc) !! "_id" = None).
Proof.
  intros d v H. split.
  - intros Hv. split; [by eapply serialize_doc_falsy_id|].
    by rewrite lookup_insert_ne.
  - intros s Hv Hs. split.
    + unfold serialize_doc. by rewrite (map_is_empty_false _ _ _ H), H, Hv, Hs.
    + rewrite lookup_insert_ne by done. apply lookup_delete_eq.
Qed.

Lemma serialize_doc_other_identifiers_witness :
  serialize_doc zero_id_example = Some (<["id" := VNone]> zero_id_example)
  ∧ serialize_doc string_id_example
    = Some (<["id" := VStr "sku-1"]> (delete "_id" string_id_example)).
Proof.
  split.
  - apply (proj1 (serialize_doc_other_identifiers zero_id_example (VInt 0) eq_refl)).
    reflexivity.
  - apply (proj2 (serialize_doc_other_identifiers string_id_example (VStr "sku-1")
                    eq_refl) "sku-1"); reflexivity.
Defined.

(** ** Default limits *)

(** X19. A listing requested without a limit is cut to the default: at
    most 50 products, at most 20 posts. *)
Theorem default_limits :
  (∀ db r items,
     pq_limit r = None →
     GET_products db r = Some (Json (VList items)) → (length items ≤ 50)%nat)
  ∧ (∀ db skip items,
       GET_blogs db None skip = Some (Json (VList items)) → (length items ≤ 20)%nat).
Proof.
  split.
  - intros db r items Hl. unfold GET_products. rewrite Hl.
    destruct (products_query_ok r); [|discriminate].
    intros H%list_products_length. simpl in H. lia.
  - intros db skip items. unfold GET_blogs.
    destruct (_ && _); [|discriminate].
    intros H%list_blogs_length. simpl in H. lia.
Qed.

Lemma default_limits_witness :
  (length [VDict (publish glass_card_pro)] ≤ 50)%nat.
Proof.
  apply (proj1 default_limits (Some seeded)
           (mkProductsQuery None None (Some f100) (Some f250) None None None None));
    [reflexivity | vm_compute; reflexivity].
Defined.
